(** * kjellbergmap: the three.js GLB viewer (viewer.js) and the zoom range
      of the map page (main.js)

    A shallow embedding of the viewer script: start-up ([init], [animate]),
    the asset-load callbacks of [loadGLBModel], the material normaliser
    ([adjustMaterial]), the auto-framing computation ([frameModel]), the
    view reset ([resetView]) and the resize handler ([onWindowResize]);
    of the map page, the computation of the zoom range in its [init].

    Conventions of the embedding.
    - JavaScript numbers are [num]: the finite values are real numbers,
      next to [NaN] and the two infinities with their IEEE-754 arithmetic
      (division by zero, [Infinity - Infinity], ...).  Rounding, overflow
      and the sign of zero are not modelled.
    - three.js [Vector3] objects that outlive a call (the camera position,
      the orbit target, the saved initial pose) live in a store and are
      held by reference, so that [copy] and [clone] mean what they mean in
      JavaScript.  Materials and textures are held by reference as well.
    - A function that can raise a [TypeError] returns an [outcome]: either
      it [Returned] or it [Threw], with the state reached at that point.
    - What three.js computes from data the script does not see is a
      parameter of the development ([ThreeJS]): the bounding box of an
      object ([Box3.setFromObject]), what [OrbitControls.update] does to
      the camera, and the constants of the global [THREE] namespace.  The
      small three.js methods the script calls on its own data ([Box3]'s
      [isEmpty], [getSize], [getCenter], [Object3D.traverse]) are written
      out after the library. *)

From Stdlib Require Import Reals Lra.
From stdpp Require Import gmap strings list fin_maps.

Local Open Scope string_scope.

(** ** Numbers *)

Inductive num : Type :=
| NaN
| PInf
| NInf
| Fin (r : R).

Definition is_finite (a : num) : Prop := exists r, a = Fin r.

Definition num_opp (a : num) : num :=
  match a with
  | NaN => NaN
  | PInf => NInf
  | NInf => PInf
  | Fin x => Fin (- x)
  end.

Definition num_add (a b : num) : num :=
  match a, b with
  | NaN, _ | _, NaN => NaN
  | PInf, NInf | NInf, PInf => NaN
  | PInf, _ | _, PInf => PInf
  | NInf, _ | _, NInf => NInf
  | Fin x, Fin y => Fin (x + y)
  end.

Definition num_sub (a b : num) : num := num_add a (num_opp b).

(** [x * Infinity]: [NaN] for [x = 0], otherwise an infinity of the sign
    of [x]. *)
Definition scale_inf (x : R) (positive : bool) : num :=
  if Req_dec_T x 0 then NaN
  else if Rlt_dec 0 x then (if positive then PInf else NInf)
       else (if positive then NInf else PInf).

Definition num_mul (a b : num) : num :=
  match a, b with
  | NaN, _ | _, NaN => NaN
  | Fin x, Fin y => Fin (x * y)
  | Fin x, PInf | PInf, Fin x => scale_inf x true
  | Fin x, NInf | NInf, Fin x => scale_inf x false
  | PInf, PInf | NInf, NInf => PInf
  | PInf, NInf | NInf, PInf => NInf
  end.

Definition num_div (a b : num) : num :=
  match a, b with
  | NaN, _ | _, NaN => NaN
  | Fin x, Fin y =>
      if Req_dec_T y 0 then
        (if Req_dec_T x 0 then NaN else if Rlt_dec 0 x then PInf else NInf)
      else Fin (x / y)
  | Fin _, PInf | Fin _, NInf => Fin 0
  | PInf, Fin y => if Rlt_dec y 0 then NInf else PInf
  | NInf, Fin y => if Rlt_dec y 0 then PInf else NInf
  | _, _ => NaN
  end.

(** The JavaScript [<]: false as soon as one side is [NaN]. *)
Definition num_ltb (a b : num) : bool :=
  match a, b with
  | NaN, _ | _, NaN => false
  | Fin x, Fin y => if Rlt_dec x y then true else false
  | NInf, NInf | PInf, _ => false
  | NInf, _ | _, PInf => true
  | Fin _, NInf => false
  end.

(** [Math.max] of two arguments; the three-argument call is [Math_max3]. *)
Definition Math_max (a b : num) : num :=
  match a, b with
  | NaN, _ | _, NaN => NaN
  | PInf, _ | _, PInf => PInf
  | NInf, c | c, NInf => c
  | Fin x, Fin y => Fin (Rmax x y)
  end.

Definition Math_max3 (a b c : num) : num := Math_max (Math_max a b) c.

Definition Math_min (a b : num) : num := num_opp (Math_max (num_opp a) (num_opp b)).

Definition Math_PI : num := Fin PI.

Definition Math_tan (a : num) : num :=
  match a with
  | Fin x => if Req_dec_T (cos x) 0 then NaN else Fin (tan x)
  | _ => NaN
  end.

(** ** Vectors and bounding boxes (three.js [Vector3], [Box3]) *)

Record Vec3 : Type := mkVec3 { vx : num; vy : num; vz : num }.

Definition vec_finite (v : Vec3) : Prop :=
  is_finite (vx v) /\ is_finite (vy v) /\ is_finite (vz v).

Definition vzero : Vec3 := mkVec3 (Fin 0) (Fin 0) (Fin 0).

Record Box3 : Type := mkBox3 { bmin : Vec3; bmax : Vec3 }.

(** A fresh [new THREE.Box3()] spans from [+Infinity] to [-Infinity]. *)
Definition Box3_new : Box3 := mkBox3 (mkVec3 PInf PInf PInf) (mkVec3 NInf NInf NInf).

(** [isEmpty], [getSize] and [getCenter] as three.js has them: a box is
    empty when a maximum lies below its minimum, and an empty box has size
    and centre zero. *)
Definition Box3_isEmpty (b : Box3) : bool :=
  num_ltb (vx (bmax b)) (vx (bmin b))
  || num_ltb (vy (bmax b)) (vy (bmin b))
  || num_ltb (vz (bmax b)) (vz (bmin b)).

Definition Box3_getSize (b : Box3) : Vec3 :=
  if Box3_isEmpty b then vzero
  else mkVec3 (num_sub (vx (bmax b)) (vx (bmin b)))
              (num_sub (vy (bmax b)) (vy (bmin b)))
              (num_sub (vz (bmax b)) (vz (bmin b))).

Definition Box3_getCenter (b : Box3) : Vec3 :=
  if Box3_isEmpty b then vzero
  else mkVec3 (num_mul (num_add (vx (bmin b)) (vx (bmax b))) (Fin 0.5))
              (num_mul (num_add (vy (bmin b)) (vy (bmax b))) (Fin 0.5))
              (num_mul (num_add (vz (bmin b)) (vz (bmax b))) (Fin 0.5)).

Declare Scope num_scope.
Delimit Scope num_scope with num.
Bind Scope num_scope with num.
Infix "+" := num_add : num_scope.
Infix "-" := num_sub : num_scope.
Infix "*" := num_mul : num_scope.
Infix "/" := num_div : num_scope.

(** ** JavaScript values, materials, textures, scene graph *)

(** Objects are held by reference: a [loc] names a cell of a store. *)
Abbreviation loc := nat (only parsing).

Inductive jsval : Type :=
| Undefined
| JBool (b : bool)
| JNum (n : num)
| JStr (s : string).

(** Reading a property that an object does not have yields [undefined]. *)
Definition prop (o : gmap string jsval) (k : string) : jsval :=
  default Undefined (o !! k).

(** The JavaScript [k in o]. *)
Definition has_prop (k : string) (o : gmap string jsval) : bool :=
  bool_decide (is_Some (o !! k)).

(** A material: its three texture slots ([map], [emissiveMap], [lightMap],
    each a texture reference or nothing) and the [needsUpdate] flag. *)
Record Material : Type := mkMaterial {
  mat_map : option loc;
  mat_emissiveMap : option loc;
  mat_lightMap : option loc;
  mat_needsUpdate : bool
}.

(** [n.material] of a node: absent, a single material or an array. *)
Inductive MaterialProp : Type :=
| NoMaterial
| OneMaterial (m : loc)
| MaterialArray (ms : list loc).

#[warnings="-register-all"]
Inductive Object3D : Type :=
| Obj3D (isMesh : bool) (material : MaterialProp) (children : list Object3D).

Definition isMesh (n : Object3D) : bool := let 'Obj3D b _ _ := n in b.
Definition material (n : Object3D) : MaterialProp := let 'Obj3D _ m _ := n in m.

(** The parse result handed to the success callback. *)
Record GLTF : Type := mkGLTF {
  gltf_scene : option Object3D;
  gltf_scenes : option (list Object3D)
}.

(** The store of the objects held by reference. *)
Record Heap : Type := mkHeap {
  vectors : gmap loc Vec3;
  materials : gmap loc Material;
  textures : gmap loc (gmap string jsval)
}.

Definition set_vectors (vs : gmap loc Vec3) (h : Heap) : Heap :=
  mkHeap vs (materials h) (textures h).
Definition set_materials (ms : gmap loc Material) (h : Heap) : Heap :=
  mkHeap (vectors h) ms (textures h).
Definition set_textures (ts : gmap loc (gmap string jsval)) (h : Heap) : Heap :=
  mkHeap (vectors h) (materials h) ts.

Definition vec_get (vs : gmap loc Vec3) (l : loc) : Vec3 := default vzero (vs !! l).

(** [new THREE.Vector3(..)] and [v.clone()]: a cell no reference names yet. *)
Definition vec_alloc (v : Vec3) (vs : gmap loc Vec3) : loc * gmap loc Vec3 :=
  let l := fresh (dom vs) in (l, <[l := v]> vs).

(** ** The page around the viewer *)

Record LoadingEl : Type := mkLoadingEl {
  textContent : string;
  display : string;
  background : string
}.

Record Host : Type := mkHost {
  clientWidth : num;
  clientHeight : num;
  devicePixelRatio : option num;
  loadingEl : option LoadingEl;
  resetBtn : bool;
  console : list string;
  alerts : list string
}.

(** Which helper classes the page provides, at the places the script
    looks for them. *)
Record Globals : Type := mkGlobals {
  window_OrbitControls : bool;
  THREE_OrbitControls : bool;
  THREE_controls_OrbitControls : bool;
  window_GLTFLoader : bool;
  THREE_GLTFLoader : bool;
  window_DRACOLoader : bool;
  THREE_DRACOLoader : bool;
  THREE_addons_DRACOLoader : bool
}.

(** ** Camera, renderer, scene *)

Record Projection : Type := mkProjection {
  proj_fov : num; proj_aspect : num; proj_near : num; proj_far : num
}.

Record Camera : Type := mkCamera {
  fov : num;
  aspect : num;
  near : num;
  far : num;
  position : loc;
  projection : Projection
}.

(** [camera.updateProjectionMatrix()]: the projection is recomputed from
    the four frustum parameters, which it leaves as they are. *)
Definition updateProjectionMatrix (c : Camera) : Camera :=
  mkCamera (fov c) (aspect c) (near c) (far c) (position c)
           (mkProjection (fov c) (aspect c) (near c) (far c)).

Record Renderer : Type := mkRenderer {
  pixelRatio : num;
  width : num;
  height : num;
  frames : nat
}.

Inductive SceneObject : Type := HemisphereLight | DirectionalLight | ModelGroup.

Record Scene : Type := mkScene {
  scene_background : Z;
  scene_children : list SceneObject
}.

Record CameraState : Type := mkCameraState {
  saved_position : loc;
  saved_target : loc
}.

(** three.js [Object3D.traverse]: the callback on the node itself, then
    the traversal of each child in order. *)
Fixpoint traverse {S : Type} (callback : Object3D -> S -> S) (n : Object3D) (s : S) : S :=
  match n with
  | Obj3D _ _ cs => foldl (fun s c => traverse callback c s) (callback n s) cs
  end.

(** The nodes of a graph in the order [traverse] visits them. *)
Fixpoint preorder (n : Object3D) : list Object3D :=
  match n with
  | Obj3D _ _ cs => n :: flat_map preorder cs
  end.

(** ** What three.js provides *)

Class ThreeJS : Type := {
  (** The global [THREE] namespace: the constants the script reads from it. *)
  THREE : gmap string jsval;
  (** [new THREE.Box3().setFromObject(object)], [object] being a group
      given by its children. *)
  Box3_setFromObject : list Object3D -> Box3;
  (** The private state of an [OrbitControls] instance (pending pointer
      input, damping) and its [update()]: from that state, the camera
      position and the target, the new state, position and target. *)
  orbit_state : Type;
  orbit_init : orbit_state;
  orbit_update : orbit_state -> Vec3 -> Vec3 -> orbit_state * (Vec3 * Vec3)
}.

Section Viewer.

Context {three : ThreeJS}.

(** ** Material normaliser: [adjustMaterial] *)

(** The colour-space branch shared by the three slots of [adjustMaterial]:
    [colorSpace] when the texture has the property, otherwise [encoding]
    when it has that one; [encoding_name] is the name read from [THREE]
    for the legacy value. *)
Definition set_color_space (encoding_name : string) (t : gmap string jsval)
  : gmap string jsval :=
  if has_prop "colorSpace" t then <["colorSpace" := prop THREE "SRGBColorSpace"]> t
  else if has_prop "encoding" t then <["encoding" := prop THREE encoding_name]> t
  else t.

(** [if (mat.map) { ...; mat.map.flipY = false; }] *)
Definition adjust_map (t : gmap string jsval) : gmap string jsval :=
  <["flipY" := JBool false]> (set_color_space "sRGBEncoding" t).

(** [if (mat.emissiveMap) { ... }] *)
Definition adjust_emissiveMap (t : gmap string jsval) : gmap string jsval :=
  set_color_space "SRGBEncoding" t.

(** [if (mat.lightMap) { ... }] *)
Definition adjust_lightMap (t : gmap string jsval) : gmap string jsval :=
  set_color_space "SRGBEncoding" t.

(** Run [f] on the texture a slot refers to, if the slot is filled. *)
Definition on_slot (slot : option loc) (f : gmap string jsval -> gmap string jsval)
    (ts : gmap loc (gmap string jsval)) : gmap loc (gmap string jsval) :=
  match slot with
  | Some l => alter f l ts
  | None => ts
  end.

Definition adjustMaterial (m : loc) (h : Heap) : Heap :=
  match materials h !! m with
  | None => h
  | Some mat =>
      let ts := on_slot (mat_map mat) adjust_map (textures h) in
      let ts := on_slot (mat_emissiveMap mat) adjust_emissiveMap ts in
      let ts := on_slot (mat_lightMap mat) adjust_lightMap ts in
      let mat' := mkMaterial (mat_map mat) (mat_emissiveMap mat) (mat_lightMap mat) true in
      mkHeap (vectors h) (<[m := mat']> (materials h)) ts
  end.

(** The callback of [model.traverse] in the success callback of the load. *)
Definition adjust_node (n : Object3D) (h : Heap) : Heap :=
  if isMesh n then
    match material n with
    | NoMaterial => h
    | MaterialArray ms => foldl (fun h m => adjustMaterial m h) h ms
    | OneMaterial m => adjustMaterial m h
    end
  else h.

Definition normalize (model : Object3D) (h : Heap) : Heap :=
  traverse adjust_node model h.

(** ** Viewer state *)

Record Controls : Type := mkControls {
  target : loc;
  enableDamping : bool;
  dampingFactor : num;
  orbit : orbit_state
}.

(** The module-level variables of the script ([renderer], [scene],
    [camera], [controls] are [undefined] until [init] assigns them), the
    store, the page, and what the script has registered with the browser:
    the pending load, the animation-frame request and the two listeners. *)
Record Viewer : Type := mkViewer {
  renderer : option Renderer;
  scene : option Scene;
  camera : option Camera;
  controls : option Controls;
  modelGroup : list Object3D;
  initialCameraState : option CameraState;
  heap : Heap;
  host : Host;
  loadPending : bool;
  dracoLoader : bool;
  frameRequested : bool;
  resizeListener : bool;
  resetListener : bool
}.

Inductive outcome : Type :=
| Returned (st : Viewer)
| Threw (st : Viewer).

Definition state_of (o : outcome) : Viewer :=
  match o with Returned st | Threw st => st end.

Definition set_renderer (r : option Renderer) (st : Viewer) : Viewer :=
  mkViewer r (scene st) (camera st) (controls st) (modelGroup st)
    (initialCameraState st) (heap st) (host st) (loadPending st) (dracoLoader st)
    (frameRequested st) (resizeListener st) (resetListener st).
Definition set_camera (c : option Camera) (st : Viewer) : Viewer :=
  mkViewer (renderer st) (scene st) c (controls st) (modelGroup st)
    (initialCameraState st) (heap st) (host st) (loadPending st) (dracoLoader st)
    (frameRequested st) (resizeListener st) (resetListener st).
Definition set_controls (c : option Controls) (st : Viewer) : Viewer :=
  mkViewer (renderer st) (scene st) (camera st) c (modelGroup st)
    (initialCameraState st) (heap st) (host st) (loadPending st) (dracoLoader st)
    (frameRequested st) (resizeListener st) (resetListener st).
Definition set_modelGroup (g : list Object3D) (st : Viewer) : Viewer :=
  mkViewer (renderer st) (scene st) (camera st) (controls st) g
    (initialCameraState st) (heap st) (host st) (loadPending st) (dracoLoader st)
    (frameRequested st) (resizeListener st) (resetListener st).
Definition set_initialCameraState (i : option CameraState) (st : Viewer) : Viewer :=
  mkViewer (renderer st) (scene st) (camera st) (controls st) (modelGroup st)
    i (heap st) (host st) (loadPending st) (dracoLoader st)
    (frameRequested st) (resizeListener st) (resetListener st).
Definition set_heap (h : Heap) (st : Viewer) : Viewer :=
  mkViewer (renderer st) (scene st) (camera st) (controls st) (modelGroup st)
    (initialCameraState st) h (host st) (loadPending st) (dracoLoader st)
    (frameRequested st) (resizeListener st) (resetListener st).
Definition set_host (h : Host) (st : Viewer) : Viewer :=
  mkViewer (renderer st) (scene st) (camera st) (controls st) (modelGroup st)
    (initialCameraState st) (heap st) h (loadPending st) (dracoLoader st)
    (frameRequested st) (resizeListener st) (resetListener st).
Definition set_loadPending (b : bool) (st : Viewer) : Viewer :=
  mkViewer (renderer st) (scene st) (camera st) (controls st) (modelGroup st)
    (initialCameraState st) (heap st) (host st) b (dracoLoader st)
    (frameRequested st) (resizeListener st) (resetListener st).
Definition set_dracoLoader (b : bool) (st : Viewer) : Viewer :=
  mkViewer (renderer st) (scene st) (camera st) (controls st) (modelGroup st)
    (initialCameraState st) (heap st) (host st) (loadPending st) b
    (frameRequested st) (resizeListener st) (resetListener st).
Definition set_frameRequested (b : bool) (st : Viewer) : Viewer :=
  mkViewer (renderer st) (scene st) (camera st) (controls st) (modelGroup st)
    (initialCameraState st) (heap st) (host st) (loadPending st) (dracoLoader st)
    b (resizeListener st) (resetListener st).
Definition set_listeners (resize reset : bool) (st : Viewer) : Viewer :=
  mkViewer (renderer st) (scene st) (camera st) (controls st) (modelGroup st)
    (initialCameraState st) (heap st) (host st) (loadPending st) (dracoLoader st)
    (frameRequested st) resize reset.

(** [v.copy(..)] and friends on a vector held by reference. *)
Definition write_vector (l : loc) (v : Vec3) (st : Viewer) : Viewer :=
  set_heap (set_vectors (<[l := v]> (vectors (heap st))) (heap st)) st.

Definition read_vector (st : Viewer) (l : loc) : Vec3 :=
  vec_get (vectors (heap st)) l.

(** ** Error display: [showError] *)

Definition console_log (msg : string) (h : Host) : Host :=
  mkHost (clientWidth h) (clientHeight h) (devicePixelRatio h) (loadingEl h)
    (resetBtn h) (console h ++ [msg]) (alerts h).

Definition set_loadingEl (el : option LoadingEl) (h : Host) : Host :=
  mkHost (clientWidth h) (clientHeight h) (devicePixelRatio h) el
    (resetBtn h) (console h) (alerts h).

Definition alert (msg : string) (h : Host) : Host :=
  mkHost (clientWidth h) (clientHeight h) (devicePixelRatio h) (loadingEl h)
    (resetBtn h) (console h) (alerts h ++ [msg]).

Definition set_clientSize (w h : num) (o : Host) : Host :=
  mkHost w h (devicePixelRatio o) (loadingEl o) (resetBtn o) (console o) (alerts o).

Definition showError (msg : string) (st : Viewer) : Viewer :=
  let h := console_log msg (host st) in
  match loadingEl h with
  | Some _ =>
      set_host (set_loadingEl (Some (mkLoadingEl msg "block" "rgba(128,0,0,0.8)")) h) st
  | None => set_host (alert msg h) st
  end.

(** ** Render loop: [animate] *)

(** [controls.update()]: the controls move the camera they were built
    around and their own target, both in place. *)
Definition controls_update (st : Viewer) : Viewer :=
  match controls st, camera st with
  | Some ctl, Some cam =>
      let '(s, (p, t)) :=
        orbit_update (orbit ctl) (read_vector st (position cam)) (read_vector st (target ctl)) in
      let ctl' := mkControls (target ctl) (enableDamping ctl) (dampingFactor ctl) s in
      set_controls (Some ctl') (write_vector (target ctl) t (write_vector (position cam) p st))
  | _, _ => st
  end.

Definition render (r : Renderer) : Renderer :=
  mkRenderer (pixelRatio r) (width r) (height r) (S (frames r)).

Definition animate (st : Viewer) : Viewer :=
  let st := set_frameRequested true st in
  let st := match controls st with Some _ => controls_update st | None => st end in
  match renderer st, scene st, camera st with
  | Some r, Some _, Some _ => set_renderer (Some (render r)) st
  | _, _, _ => st
  end.

(** ** Resize handler: [onWindowResize] *)

Definition set_aspect (a : num) (c : Camera) : Camera :=
  mkCamera (fov c) a (near c) (far c) (position c) (projection c).

Definition setSize (w h : num) (r : Renderer) : Renderer :=
  mkRenderer (pixelRatio r) w h (frames r).

Definition onWindowResize (st : Viewer) : outcome :=
  let w := clientWidth (host st) in
  let h := clientHeight (host st) in
  match camera st with
  | None => Threw st
  | Some cam =>
      let st := set_camera (Some (updateProjectionMatrix (set_aspect (w / h) cam))) st in
      match renderer st with
      | None => Threw st
      | Some r => Returned (set_renderer (Some (setSize w h r)) st)
      end
  end.

(** ** Auto-framing: [frameModel] *)

(** Lines 186-189: the field of view in radians and the distance. *)
Definition frame_distance (camera_fov maxDim : num) : num :=
  let fov := (camera_fov * (Math_PI / Fin 180))%num in
  let distance := (maxDim / (Fin 2 * Math_tan (fov / Fin 2)))%num in
  (distance * Fin 1.5 + Fin 0.5)%num.

Definition set_near_far (n f : num) (c : Camera) : Camera :=
  mkCamera (fov c) (aspect c) n f (position c) (projection c).

(** Lines 203-206: [initialCameraState = { position: camera.position.clone(),
    target: controls.target.clone() }]. *)
Definition save_initial_state (cam : Camera) (ctl : Controls) (st : Viewer) : Viewer :=
  let '(p, vs) := vec_alloc (read_vector st (position cam)) (vectors (heap st)) in
  let '(t, vs) := vec_alloc (read_vector st (target ctl)) vs in
  set_initialCameraState (Some (mkCameraState p t))
    (set_heap (set_vectors vs (heap st)) st).

Definition frameModel (object : list Object3D) (st : Viewer) : outcome :=
  let box := Box3_setFromObject object in
  let size := Box3_getSize box in
  let center := Box3_getCenter box in
  let maxDim := Math_max3 (vx size) (vy size) (vz size) in
  match camera st with
  | None => Threw st
  | Some cam =>
      let distance := frame_distance (fov cam) maxDim in
      let camPos := mkVec3 (vx center) (vy center) (vz center + distance)%num in
      let st := write_vector (position cam) camPos st in
      let cam := set_near_far (Math_max (Fin 0.01) (distance / Fin 1000)%num)
                              (distance * Fin 100)%num cam in
      let st := set_camera (Some (updateProjectionMatrix cam)) st in
      match controls st with
      | None => Threw st
      | Some ctl =>
          let st := write_vector (target ctl) center st in
          let st := controls_update st in
          Returned (save_initial_state cam ctl st)
      end
  end.

(** ** View reset: [resetView] *)

Definition resetView (st : Viewer) : outcome :=
  match initialCameraState st with
  | None => Returned st
  | Some ics =>
      match camera st with
      | None => Threw st
      | Some cam =>
          let st := write_vector (position cam) (read_vector st (saved_position ics)) st in
          match controls st with
          | None => Threw st
          | Some ctl =>
              let st := write_vector (target ctl) (read_vector st (saved_target ics)) st in
              Returned (controls_update st)
          end
      end
  end.

(** ** Asset load: [loadGLBModel] and its callbacks *)

(** [gltf.scene || gltf.scenes?.[0]] *)
Definition gltf_model (gltf : GLTF) : option Object3D :=
  match gltf_scene gltf with
  | Some model => Some model
  | None =>
      match gltf_scenes gltf with
      | Some (model :: _) => Some model
      | _ => None
      end
  end.

(** [if (loadingEl) loadingEl.style.display = 'none'] *)
Definition hide_loading (st : Viewer) : Viewer :=
  match loadingEl (host st) with
  | Some el =>
      set_host (set_loadingEl (Some (mkLoadingEl (textContent el) "none" (background el)))
                  (host st)) st
  | None => st
  end.

(** The success callback of [loader.load]. *)
Definition onLoad (gltf : GLTF) (st : Viewer) : outcome :=
  let st := set_modelGroup [] st in
  match gltf_model gltf with
  | None => Returned (showError "Loaded file contains no scene." st)
  | Some model =>
      let st := set_modelGroup (modelGroup st ++ [model]) st in
      let st := set_heap (normalize model (heap st)) st in
      match frameModel (modelGroup st) st with
      | Threw st => Threw st
      | Returned st => Returned (hide_loading st)
      end
  end.

(** The error callback of [loader.load]. *)
Definition onError (err : string) (st : Viewer) : Viewer :=
  let st := set_host (console_log ("GLTF load error: " ++ err) (host st)) st in
  showError "Failed to load 3D model. See console for details." st.

Definition loadGLBModel (g : Globals) (st : Viewer) : Viewer :=
  if window_GLTFLoader g || THREE_GLTFLoader g then
    let st :=
      if window_DRACOLoader g || THREE_DRACOLoader g || THREE_addons_DRACOLoader g
      then set_dracoLoader true st
      else set_host (console_log
             "DRACOLoader not available - Draco compressed meshes may not load properly"
             (host st)) st in
    set_loadPending true st
  else showError "GLTFLoader not available in this build of three.js." st.

(** ** Start-up: [init] and the top level of the script *)

(** [window.devicePixelRatio || 1] *)
Definition devicePixelRatio_or_1 (h : Host) : num :=
  match devicePixelRatio h with
  | None | Some NaN => Fin 1
  | Some (Fin x) => if Req_dec_T x 0 then Fin 1 else Fin x
  | Some d => d
  end.

(** The state the declarations at the top of the script leave. *)
Definition initial (h : Host) : Viewer :=
  mkViewer None None None None [] None (mkHeap ∅ ∅ ∅) h false false false false false.

(** The renderer, the scene with its two lights and the model group, the
    camera, then the controls, the load and the listeners; without the
    controls [init] returns after [showError].  The output colour space of
    the renderer, the parameters of the lights and the insertion of the
    canvas into the page are left out. *)
Definition init (g : Globals) (st : Viewer) : Viewer :=
  let w := clientWidth (host st) in
  let h := clientHeight (host st) in
  let r := mkRenderer (Math_min (devicePixelRatio_or_1 (host st)) (Fin 2)) w h 0 in
  let sc := mkScene 0x0b1220 [HemisphereLight; DirectionalLight; ModelGroup] in
  let '(p, vs) := vec_alloc (mkVec3 (Fin 0) (Fin 5) (Fin 10)) (vectors (heap st)) in
  let cam := updateProjectionMatrix
               (mkCamera (Fin 45) (w / h)%num (Fin 0.1) (Fin 10000) p
                  (mkProjection (Fin 45) (w / h)%num (Fin 0.1) (Fin 10000))) in
  let st := mkViewer (Some r) (Some sc) (Some cam) (controls st) (modelGroup st)
              (initialCameraState st) (set_vectors vs (heap st)) (host st)
              (loadPending st) (dracoLoader st) (frameRequested st)
              (resizeListener st) (resetListener st) in
  if window_OrbitControls g || THREE_OrbitControls g || THREE_controls_OrbitControls g then
    let '(t, vs) := vec_alloc vzero (vectors (heap st)) in
    let st := set_controls (Some (mkControls t true (Fin 0.07) orbit_init))
                (set_heap (set_vectors vs (heap st)) st) in
    let st := loadGLBModel g st in
    set_listeners true (resetBtn (host st)) st
  else showError "OrbitControls not available in this build of three.js." st.

(** [init(); animate();] *)
Definition boot (g : Globals) (h : Host) : Viewer := animate (init g (initial h)).

(** ** What the browser does afterwards *)

Inductive event : Type :=
| AnimationFrame
| Resize (w h : num)
| ResetClick
| Pointer (s : orbit_state)
| LoadOk (gltf : GLTF) (ms : gmap loc Material) (ts : gmap loc (gmap string jsval))
| LoadFailed (err : string).

(** One event: the handler the script registered for it runs, if it
    registered one; an exception ends the handler and nothing else.
    The progress callback of the load, which only rewrites the loading
    text, is left out.
    [Pointer s] is pointer input reaching the controls' own listeners;
    [LoadOk] brings the parsed asset with the materials and textures the
    loader built for it. *)
Definition step (st : Viewer) (ev : event) : Viewer :=
  match ev with
  | AnimationFrame => if frameRequested st then animate st else st
  | Resize w h =>
      let st := set_host (set_clientSize w h (host st)) st in
      if resizeListener st then state_of (onWindowResize st) else st
  | ResetClick => if resetListener st then state_of (resetView st) else st
  | Pointer s =>
      match controls st with
      | Some ctl =>
          set_controls (Some (mkControls (target ctl) (enableDamping ctl) (dampingFactor ctl) s)) st
      | None => st
      end
  | LoadOk gltf ms ts =>
      if loadPending st then
        state_of (onLoad gltf
          (set_heap (set_textures ts (set_materials ms (heap st))) (set_loadPending false st)))
      else st
  | LoadFailed err =>
      if loadPending st then onError err (set_loadPending false st) else st
  end.

Definition run (evs : list event) (st : Viewer) : Viewer := foldl step st evs.

(** ** Parts of the script outside the event loop *)

(** Lines 22-32 of [init], on the renderer seen as the object whose
    properties they test and assign: [outputColorSpace] where the
    renderer has it (three.js from r150), otherwise [outputEncoding]. *)
Definition init_outputColorSpace (renderer : gmap string jsval) : gmap string jsval :=
  if has_prop "outputColorSpace" renderer then
    if has_prop "SRGBColorSpace" THREE
    then <["outputColorSpace" := prop THREE "SRGBColorSpace"]> renderer
    else <["outputColorSpace" := prop THREE "SRGBColorSpace"]> renderer
  else if has_prop "outputEncoding" renderer
       then <["outputEncoding" := prop THREE "sRGBEncoding"]> renderer
       else renderer.

(** A number used as a condition: [0] and [NaN] count as false. *)
Definition num_truthy (a : num) : bool :=
  match a with
  | NaN => false
  | Fin x => if Req_dec_T x 0 then false else true
  | _ => true
  end.

(** The progress callback of [loader.load], for [xhr.loaded] and
    [xhr.total]; [toFixed0] is [Number.prototype.toFixed] with no
    decimals. *)
Definition onProgress (toFixed0 : num -> string) (loaded total : num) (st : Viewer) : Viewer :=
  match loadingEl (host st) with
  | Some el =>
      let p := if num_truthy total then Some (loaded / total * Fin 100)%num else None in
      let text :=
        match p with
        | Some p =>
            if num_truthy p then "Loading 3D model... " ++ toFixed0 p ++ "%"
            else "Loading 3D model..."
        | None => "Loading 3D model..."
        end in
      set_host (set_loadingEl (Some (mkLoadingEl text (display el) (background el)))
                  (host st)) st
  | None => st
  end.

End Viewer.

(** * The Leaflet map page (main.js): the zoom range *)

(** The global [isNaN] on a number. *)
Definition isNaN (n : num) : bool :=
  match n with
  | NaN => true
  | _ => false
  end.

(** [Math.min(...l)] and [Math.max(...l)]: [Infinity] and [-Infinity] for
    no argument. *)
Definition Math_min_list (l : list num) : num := foldr Math_min PInf l.
Definition Math_max_list (l : list num) : num := foldr Math_max NInf l.

(** Lines 127-134 of [init]: [parsed] holds, for each [TileSet] element of
    the document in order, the [parseInt] of its [order] attribute, [NaN]
    where there is no number to read; [zoom] is the pair [(minZoom,
    maxZoom)] so far. *)
Definition tileset_zoom (parsed : list num) (zoom : num * num) : num * num :=
  if bool_decide (0 < length parsed) then
    let orders := List.filter (fun n => negb (isNaN n)) parsed in
    if bool_decide (0 < length orders)
    then (Math_min_list orders, Math_max_list orders)
    else zoom
  else zoom.

(** The zoom range [init] ends with: [minZoom = 0] and [maxZoom = 23] at
    first (lines 87-88), then the [TileSet] orders when the [try] block
    gets to them, and [5] and [23] from the [catch] block (lines 139-140)
    when the block throws before, which is the case [None]. *)
Definition init_zoom (tilesets : option (list num)) : num * num :=
  match tilesets with
  | Some parsed => tileset_zoom parsed (Fin 0, Fin 23)
  | None => (Fin 5, Fin 23)
  end.

(** * Vocabulary of the properties *)

Section Vocabulary.

Context {three : ThreeJS}.

(** ** Arithmetic on finite numbers *)

(** The radian value of a field of view given in degrees. *)
Definition radians (f : R) : R := (f * (PI / 180))%R.

(** The distance of lines 186-189 over the reals. *)
Definition distance_of (f m : R) : R := (m / (2 * tan (radians f / 2)) * 1.5 + 0.5)%R.

(** ** The vector store *)

Definition orbit_idle (s : orbit_state) : Prop :=
  forall p t, snd (orbit_update s p t) = (p, t).

(** ** Auto-framing *)

Definition box_finite (b : Box3) : Prop := vec_finite (bmin b) /\ vec_finite (bmax b).

(** A box with finite corners that spans nothing along one axis at least. *)
Definition zero_volume (b : Box3) : Prop :=
  box_finite b /\ Box3_isEmpty b = false
  /\ (vx (Box3_getSize b) = Fin 0 \/ vy (Box3_getSize b) = Fin 0 \/ vz (Box3_getSize b) = Fin 0).

Definition degenerate (b : Box3) : Prop := Box3_isEmpty b = true \/ zero_volume b.


(** ** Material normaliser *)

(** The three slot adjustments are instances of one: the colour-space
    branch with a given legacy name, followed or not by [flipY = false]. *)
Definition adjust (flip : bool) (encoding_name : string) (t : gmap string jsval)
  : gmap string jsval :=
  let t' := set_color_space encoding_name t in
  if flip then <["flipY" := JBool false]> t' else t'.

(** A texture adjustment as data: which texture, and the two parameters
    of [adjust]. *)
Definition tex_op : Type := loc * (bool * string).

Definition apply_op (ts : gmap loc (gmap string jsval)) (o : tex_op)
  : gmap loc (gmap string jsval) :=
  alter (adjust (fst (snd o)) (snd (snd o))) (fst o) ts.

Definition apply_ops (ops : list tex_op) (ts : gmap loc (gmap string jsval))
  : gmap loc (gmap string jsval) :=
  foldl apply_op ts ops.

(** The adjustments of [ops] that reach the texture at [l], in order,
    composed. *)
Fixpoint adjust_at (l : loc) (ops : list tex_op) (t : gmap string jsval)
  : gmap string jsval :=
  match ops with
  | [] => t
  | o :: ops =>
      adjust_at l ops (if decide (fst o = l) then adjust (fst (snd o)) (snd (snd o)) t else t)
  end.

(** The texture adjustments one call of [adjustMaterial] makes. *)
Definition slot_op (slot : option loc) (flip : bool) (e : string) : list tex_op :=
  match slot with
  | Some l => [(l, (flip, e))]
  | None => []
  end.

Definition material_ops (mat : Material) : list tex_op :=
  slot_op (mat_map mat) true "sRGBEncoding"
  ++ slot_op (mat_emissiveMap mat) false "SRGBEncoding"
  ++ slot_op (mat_lightMap mat) false "SRGBEncoding".

Definition mark_dirty (mat : Material) : Material :=
  mkMaterial (mat_map mat) (mat_emissiveMap mat) (mat_lightMap mat) true.

Definition ops_of (M : gmap loc Material) (ms : list loc) : list tex_op :=
  flat_map (fun m => from_option material_ops [] (M !! m)) ms.

Definition adjust_all (ms : list loc) (h : Heap) : Heap :=
  foldl (fun h m => adjustMaterial m h) h ms.

Definition dirty_all (ms : list loc) (M : gmap loc Material) : gmap loc Material :=
  foldl (fun M m => alter mark_dirty m M) M ms.

(** The materials [adjust_node] adjusts at a node, in order. *)
Definition node_materials (n : Object3D) : list loc :=
  if isMesh n then
    match material n with
    | NoMaterial => []
    | OneMaterial m => [m]
    | MaterialArray ms => ms
    end
  else [].

Definition visited_materials (model : Object3D) : list loc :=
  flat_map node_materials (preorder model).

(** ** Error display and the load callbacks *)

(** The message is logged and shown: in the loading element, made visible
    on its alerting background, or in an alert box when the page has no
    such element. *)
Definition error_visible (msg : string) (st : Viewer) : Prop :=
  last (console (host st)) = Some msg
  /\ match loadingEl (host st) with
     | Some el => el = mkLoadingEl msg "block" "rgba(128,0,0,0.8)"
     | None => last (alerts (host st)) = Some msg
     end.

(** Everything of the viewer but the page: the variables of the script,
    the store, and what is registered with the browser. *)
Definition same_but_host (st st' : Viewer) : Prop :=
  renderer st' = renderer st /\ scene st' = scene st /\ camera st' = camera st
  /\ controls st' = controls st /\ modelGroup st' = modelGroup st
  /\ initialCameraState st' = initialCameraState st /\ heap st' = heap st
  /\ loadPending st' = loadPending st /\ dracoLoader st' = dracoLoader st
  /\ frameRequested st' = frameRequested st
  /\ resizeListener st' = resizeListener st /\ resetListener st' = resetListener st.

(** ** Start-up without the orbit controls *)

Definition OrbitControls_missing (g : Globals) : Prop :=
  window_OrbitControls g = false /\ THREE_OrbitControls g = false
  /\ THREE_controls_OrbitControls g = false.

(** ** The saved initial pose *)

(** A load has succeeded: the camera and the controls are in place with
    their position and target in the cells [pl] and [tl], no load is
    pending, and the snapshot [ics] holds [P] and [T]. *)
Definition snapshot_kept (pl tl : loc) (ics : CameraState) (P T : Vec3)
    (st : Viewer) : Prop :=
  (exists cam, camera st = Some cam /\ position cam = pl)
  /\ (exists ctl, controls st = Some ctl /\ target ctl = tl)
  /\ initialCameraState st = Some ics
  /\ loadPending st = false
  /\ read_vector st (saved_position ics) = P
  /\ read_vector st (saved_target ics) = T.

(** ** Before any load has succeeded *)

(** An event that is not a successful load: any event but a success
    callback whose parse result has a scene. *)
Definition no_successful_load (ev : event) : Prop :=
  match ev with
  | LoadOk gltf _ _ => gltf_model gltf = None
  | _ => True
  end.

(** ** What a session keeps fixed *)

(** From [st] to [st'] the camera keeps its field of view and its
    position cell, and the controls keep their target cell. *)
Definition cells_kept (st st' : Viewer) : Prop :=
  (forall cam', camera st' = Some cam' ->
     exists cam, camera st = Some cam /\ fov cam' = fov cam /\ position cam' = position cam)
  /\ (forall ctl', controls st' = Some ctl' ->
       exists ctl, controls st = Some ctl /\ target ctl' = target ctl).

(** ** Sessions *)

(** What [init] and [loadGLBModel] look for, in the places they look. *)
Definition OrbitControls_found (g : Globals) : bool :=
  window_OrbitControls g || THREE_OrbitControls g || THREE_controls_OrbitControls g.

Definition GLTFLoader_found (g : Globals) : bool :=
  window_GLTFLoader g || THREE_GLTFLoader g.

Definition DRACOLoader_found (g : Globals) : bool :=
  window_DRACOLoader g || THREE_DRACOLoader g || THREE_addons_DRACOLoader g.

(** The number of frames rendered so far. *)
Definition frames_of (st : Viewer) : nat :=
  match renderer st with
  | Some r => frames r
  | None => 0
  end.

(** The animation frames among the events of a session. *)
Fixpoint animation_frames (evs : list event) : nat :=
  match evs with
  | [] => 0
  | AnimationFrame :: evs => S (animation_frames evs)
  | _ :: evs => animation_frames evs
  end.

(** The scene [init] builds. *)
Definition initial_scene : Scene :=
  mkScene 0x0b1220 [HemisphereLight; DirectionalLight; ModelGroup].

(** The projection matrix is the one of the camera's frustum parameters. *)
Definition projection_current (cam : Camera) : Prop :=
  projection cam = mkProjection (fov cam) (aspect cam) (near cam) (far cam).

(** What every state of a session on the page [h] with the helpers [g]
    has: the renderer with the pixel ratio chosen at start-up, the scene,
    a camera whose projection is current, the render loop requested, the
    listeners registered when the controls were found, and controls
    whenever they were found. *)
Record session_wf (g : Globals) (h : Host) (st : Viewer) : Prop := {
  wf_renderer :
    exists r, renderer st = Some r
      /\ pixelRatio r = Math_min (devicePixelRatio_or_1 h) (Fin 2);
  wf_scene : scene st = Some initial_scene;
  wf_camera : exists cam, camera st = Some cam /\ projection_current cam;
  wf_frame : frameRequested st = true;
  wf_controls : is_Some (controls st) <-> OrbitControls_found g = true;
  wf_pending :
    loadPending st = true -> OrbitControls_found g = true /\ GLTFLoader_found g = true;
  wf_snapshot : is_Some (initialCameraState st) -> OrbitControls_found g = true;
  wf_resize : resizeListener st = OrbitControls_found g;
  wf_reset : resetListener st = OrbitControls_found g && resetBtn h;
  wf_draco :
    dracoLoader st = OrbitControls_found g && GLTFLoader_found g && DRACOLoader_found g
}.

(** The camera and the renderer follow the size of the container. *)
Definition viewport_current (st : Viewer) : Prop :=
  exists cam r,
    camera st = Some cam /\ renderer st = Some r
    /\ aspect cam = (clientWidth (host st) / clientHeight (host st))%num
    /\ width r = clientWidth (host st) /\ height r = clientHeight (host st).

(** ** Material normaliser: what a texture is referenced by *)

Definition references (mat : Material) (l : loc) : Prop :=
  mat_map mat = Some l \/ mat_emissiveMap mat = Some l \/ mat_lightMap mat = Some l.

(** A material the traversal of [model] adjusts, as the store has it
    before the traversal. *)
Definition visited (model : Object3D) (h : Heap) (mat : Material) : Prop :=
  exists n m, n ∈ preorder model /\ m ∈ node_materials n /\ materials h !! m = Some mat.

End Vocabulary.

(** * Concrete instances *)

(** three.js before r152, where textures carry [encoding] and [THREE] has
    [sRGBEncoding] (and no [SRGBEncoding]); controls with nothing pending,
    whose [update] leaves the pose as it is; every object bounded by
    [box]. *)
Definition three_legacy (box : Box3) : ThreeJS := {|
  THREE := {[ "SRGBColorSpace" := JStr "srgb";
              "LinearEncoding" := JNum (Fin 3000);
              "sRGBEncoding" := JNum (Fin 3001) ]};
  Box3_setFromObject := fun _ => box;
  orbit_state := unit;
  orbit_init := tt;
  orbit_update := fun s p t => (s, (p, t))
|}.

(** Controls with inertia, as [enableDamping] gives them: pointer input
    leaves a number of updates of motion pending, and each [update] while
    some are left pans the camera and the target by one unit along X.  With
    nothing pending, [update] leaves the pose as it is. *)
Definition pan_x (v : Vec3) : Vec3 := mkVec3 (vx v + Fin 1)%num (vy v) (vz v).

Definition three_inertia (box : Box3) : ThreeJS := {|
  THREE := {[ "SRGBColorSpace" := JStr "srgb" ]};
  Box3_setFromObject := fun _ => box;
  orbit_state := nat;
  orbit_init := 0;
  orbit_update := fun s p t =>
    match s with
    | 0 => (0, (p, t))
    | S n => (n, (pan_x p, pan_x t))
    end
|}.

Definition cube_box : Box3 :=
  mkBox3 (mkVec3 (Fin (-1)) (Fin (-1)) (Fin (-1))) (mkVec3 (Fin 1) (Fin 1) (Fin 1)).


Definition example_host : Host :=
  mkHost (Fin 800) (Fin 600) (Some (Fin 1))
    (Some (mkLoadingEl "Loading 3D model..." "block" "")) true [] [].

Definition example_camera : Camera :=
  mkCamera (Fin 45) (Fin 800 / Fin 600)%num (Fin 0.1) (Fin 10000) 0
    (mkProjection (Fin 45) (Fin 800 / Fin 600)%num (Fin 0.1) (Fin 10000)).

Definition example_controls (box : Box3) : Controls (three := three_legacy box) :=
  mkControls (three := three_legacy box) 1 true (Fin 0.07) tt.

(** The viewer as [init] leaves it on a page that provides every helper,
    the load still pending. *)
Definition example_viewer (box : Box3) : Viewer (three := three_legacy box) :=
  mkViewer (three := three_legacy box)
    (Some (mkRenderer (Fin 1) (Fin 800) (Fin 600) 1))
    (Some (mkScene 0x0b1220 [HemisphereLight; DirectionalLight; ModelGroup]))
    (Some example_camera) (Some (example_controls box)) [] None
    (mkHeap {[ 0 := mkVec3 (Fin 0) (Fin 5) (Fin 10); 1 := vzero ]} ∅ ∅)
    example_host true true true true true.

(** A material with an emissive texture only, in a three.js before r152:
    the texture has [encoding] (here [LinearEncoding]) and no
    [colorSpace]. *)
Definition emissive_heap : Heap :=
  mkHeap ∅
    {[ 7 := mkMaterial None (Some 0) None false ]}
    {[ 0 := {[ "encoding" := JNum (Fin 3000); "flipY" := JBool true ]} ]}.

(** The same texture in the base-colour slot. *)
Definition base_colour_heap : Heap :=
  mkHeap ∅
    {[ 7 := mkMaterial (Some 0) None None false ]}
    {[ 0 := {[ "encoding" := JNum (Fin 3000); "flipY" := JBool true ]} ]}.

Definition old_model : Object3D := Obj3D true NoMaterial [].

(** A parse result without a default scene and with an empty scenes list. *)
Definition empty_gltf : GLTF := mkGLTF None (Some []).

(** A page with the loader and without the orbit controls. *)
Definition globals_without_OrbitControls : Globals :=
  mkGlobals false false false true true false false false.

(** A page with the controls and the loader, without the Draco decoder. *)
Definition globals_complete : Globals :=
  mkGlobals true false false true false false false false.

Definition quiet_session : list (event (three := three_legacy cube_box)) :=
  [AnimationFrame; Pointer (three := three_legacy cube_box) tt; Resize (Fin 400) (Fin 300);
   ResetClick; LoadOk empty_gltf ∅ ∅; LoadFailed "404"].

Definition navigation : list (event (three := three_legacy cube_box)) :=
  [Pointer (three := three_legacy cube_box) tt; AnimationFrame; Resize (Fin 400) (Fin 300);
   AnimationFrame; ResetClick].

(** The viewer with inertia, started on a page that provides every
    helper, after a load that succeeded. *)
Abbreviation framed_viewer :=
  (step (boot (three := three_inertia cube_box) globals_complete example_host)
        (LoadOk (mkGLTF (Some old_model) None) ∅ ∅)).

(** A drag that leaves two updates of motion, played out over two frames
    with a resize in between. *)
Definition drag_played_out : list (event (three := three_inertia cube_box)) :=
  [Pointer (three := three_inertia cube_box) 2; AnimationFrame; Resize (Fin 400) (Fin 300);
   AnimationFrame].

(** The same drag one frame later only: one update of motion is left. *)
Definition drag_in_motion : list (event (three := three_inertia cube_box)) :=
  [Pointer (three := three_inertia cube_box) 2; AnimationFrame].

(** A page with the controls and without the GLTF loader. *)
Definition globals_without_GLTFLoader : Globals :=
  mkGlobals true false false false false false false false.

(** Two mesh nodes under a plain group; the second has two materials.
    The materials 7 and 8 share the texture 0 as base colour, and 8 has
    the texture 1 as emissive map.  The textures are those of a three.js
    that has [colorSpace]. *)
Definition textured_model : Object3D :=
  Obj3D false NoMaterial
    [Obj3D true (OneMaterial 7) []; Obj3D true (MaterialArray [7; 8]) []].

Definition textured_heap : Heap :=
  mkHeap ∅
    {[ 7 := mkMaterial (Some 0) None None false;
       8 := mkMaterial (Some 0) (Some 1) None false ]}
    {[ 0 := {[ "colorSpace" := JStr ""; "flipY" := JBool true ]};
       1 := {[ "colorSpace" := JStr ""; "flipY" := JBool true ]} ]}.

(** * Properties *)

Section Properties.

Context {three : ThreeJS}.

(** ** Arithmetic on finite numbers *)

Lemma num_div_Fin (x y : R) : y <> 0%R -> (Fin x / Fin y)%num = Fin (x / y).
Proof.
  intros Hy. unfold num_div. destruct (Req_dec_T y 0) as [E | _]; [contradiction | reflexivity].
Qed.

Lemma Math_tan_Fin (x : R) : cos x <> 0%R -> Math_tan (Fin x) = Fin (tan x).
Proof.
  intros Hc. unfold Math_tan.
  destruct (Req_dec_T (cos x) 0) as [E | _]; [contradiction | reflexivity].
Qed.

Lemma half_angle_tan_pos (f : R) :
  (0 < radians f < PI)%R -> (0 < tan (radians f / 2))%R /\ cos (radians f / 2) <> 0%R.
Proof.
  intros [Hlo Hhi]. split.
  - apply tan_gt_0; lra.
  - apply Rgt_not_eq, cos_gt_0; lra.
Qed.

Lemma frame_distance_Fin (f m : R) :
  (0 < radians f < PI)%R -> frame_distance (Fin f) (Fin m) = Fin (distance_of f m).
Proof.
  intros Hf. destruct (half_angle_tan_pos f Hf) as [Ht Hc].
  unfold frame_distance, Math_PI.
  rewrite (num_div_Fin PI 180) by lra. cbn [num_mul].
  rewrite num_div_Fin by lra. fold (radians f).
  rewrite Math_tan_Fin by exact Hc. cbn [num_mul].
  rewrite num_div_Fin by lra. reflexivity.
Qed.




(** ** The vector store *)

Lemma read_write_eq (st : Viewer) (l : loc) (v : Vec3) :
  read_vector (write_vector l v st) l = v.
Proof. unfold read_vector, write_vector, vec_get. cbn. by rewrite lookup_insert_eq. Qed.

Lemma read_write_ne (st : Viewer) (l l' : loc) (v : Vec3) :
  l <> l' -> read_vector (write_vector l v st) l' = read_vector st l'.
Proof. intros Hne. unfold read_vector, write_vector, vec_get. cbn. by rewrite lookup_insert_ne. Qed.

Lemma read_write_same (st : Viewer) (l l' : loc) :
  read_vector (write_vector l (read_vector st l) st) l' = read_vector st l'.
Proof.
  destruct (decide (l = l')) as [-> | Hne].
  - apply read_write_eq.
  - by apply read_write_ne.
Qed.

Lemma controls_update_read (st : Viewer) (l : loc) :
  (forall ctl, controls st = Some ctl -> orbit_idle (orbit ctl)) ->
  read_vector (controls_update st) l = read_vector st l.
Proof.
  intros Hidle. unfold controls_update.
  destruct (controls st) as [ctl |] eqn:Hctl; [| reflexivity].
  destruct (camera st) as [cam |] eqn:Hcam; [| reflexivity].
  specialize (Hidle ctl eq_refl (read_vector st (position cam)) (read_vector st (target ctl))).
  destruct (orbit_update _ _ _) as [s [p t]]. cbn in Hidle. injection Hidle as -> ->.
  change (read_vector (write_vector (target ctl) (read_vector st (target ctl))
            (write_vector (position cam) (read_vector st (position cam)) st)) l
          = read_vector st l).
  destruct (decide (target ctl = l)) as [-> | Hne].
  - rewrite read_write_eq. reflexivity.
  - rewrite read_write_ne by exact Hne. apply read_write_same.
Qed.

Lemma controls_update_shape (st : Viewer) (cam : Camera) (ctl : Controls) :
  camera st = Some cam -> controls st = Some ctl ->
  exists s p t,
    controls_update st =
      set_controls (Some (mkControls (target ctl) (enableDamping ctl) (dampingFactor ctl) s))
        (write_vector (target ctl) t (write_vector (position cam) p st)).
Proof.
  intros Hcam Hctl. unfold controls_update. rewrite Hcam, Hctl.
  destruct (orbit_update _ _ _) as [s [p t]]. by exists s, p, t.
Qed.

(** What [save_initial_state] leaves: two cells that did not exist before,
    holding the values the live position and target have at that time. *)
Lemma save_initial_state_spec (cam : Camera) (ctl : Controls) (st : Viewer) :
  exists p t,
    save_initial_state cam ctl st =
      set_initialCameraState (Some (mkCameraState p t))
        (write_vector t (read_vector st (target ctl))
           (write_vector p (read_vector st (position cam)) st))
    /\ (p ∉ dom (vectors (heap st))) /\ (t ∉ dom (vectors (heap st))) /\ p <> t.
Proof.
  unfold save_initial_state, vec_alloc.
  set (p := fresh (dom (vectors (heap st)))).
  set (t := fresh (dom (<[p := read_vector st (position cam)]> (vectors (heap st))))).
  assert (Hp : p ∉ dom (vectors (heap st))) by apply is_fresh.
  assert (Ht : t ∉ dom (<[p := read_vector st (position cam)]> (vectors (heap st))))
    by apply is_fresh.
  rewrite dom_insert_L in Ht.
  exists p, t. split; [reflexivity |]. set_solver.
Qed.

(** ** Auto-framing *)

Lemma frameModel_eq (object : list Object3D) (st : Viewer) (cam : Camera) (ctl : Controls) :
  camera st = Some cam -> controls st = Some ctl ->
  let size := Box3_getSize (Box3_setFromObject object) in
  let center := Box3_getCenter (Box3_setFromObject object) in
  let distance := frame_distance (fov cam) (Math_max3 (vx size) (vy size) (vz size)) in
  let cam' := set_near_far (Math_max (Fin 0.01) (distance / Fin 1000)%num)
                           (distance * Fin 100)%num cam in
  frameModel object st =
    Returned (save_initial_state cam' ctl
      (controls_update
         (write_vector (target ctl) center
            (set_camera (Some (updateProjectionMatrix cam'))
               (write_vector (position cam)
                  (mkVec3 (vx center) (vy center) (vz center + distance)%num) st))))).
Proof.
  intros Hcam Hctl. cbn zeta. unfold frameModel. rewrite Hcam.
  cbn [controls set_camera write_vector set_heap]. rewrite Hctl. reflexivity.
Qed.

(** The pose [frameModel] leaves, when the controls' [update] has nothing
    pending: the live position and target, the clipping planes, and a
    snapshot in two cells of its own. *)
Lemma frameModel_pose (object : list Object3D) (st : Viewer) (cam : Camera) (ctl : Controls) :
  camera st = Some cam -> controls st = Some ctl ->
  position cam <> target ctl -> orbit_idle (orbit ctl) ->
  let size := Box3_getSize (Box3_setFromObject object) in
  let center := Box3_getCenter (Box3_setFromObject object) in
  let distance := frame_distance (fov cam) (Math_max3 (vx size) (vy size) (vz size)) in
  exists st' cam' ctl' ics,
    frameModel object st = Returned st'
    /\ camera st' = Some cam' /\ controls st' = Some ctl'
    /\ initialCameraState st' = Some ics
    /\ position cam' = position cam /\ target ctl' = target ctl
    /\ fov cam' = fov cam /\ aspect cam' = aspect cam
    /\ near cam' = Math_max (Fin 0.01) (distance / Fin 1000)%num
    /\ far cam' = (distance * Fin 100)%num
    /\ read_vector st' (position cam') =
         mkVec3 (vx center) (vy center) (vz center + distance)%num
    /\ read_vector st' (target ctl') = center
    /\ read_vector st' (saved_position ics) = read_vector st' (position cam')
    /\ read_vector st' (saved_target ics) = read_vector st' (target ctl')
    /\ saved_position ics <> position cam' /\ saved_position ics <> target ctl'
    /\ saved_target ics <> position cam' /\ saved_target ics <> target ctl'.
Proof.
  intros Hcam Hctl Hne Hidle size center distance.
  rewrite (frameModel_eq object st cam ctl Hcam Hctl). cbn zeta.
  fold size center distance.
  set (cam' := set_near_far _ _ cam).
  set (camPos := mkVec3 _ _ _).
  set (st1 := write_vector (target ctl) center _).
  assert (Hcam1 : camera st1 = Some (updateProjectionMatrix cam')) by reflexivity.
  assert (Hctl1 : controls st1 = Some ctl) by exact Hctl.
  assert (Hpos1 : read_vector st1 (position cam) = camPos).
  { unfold st1. rewrite read_write_ne by congruence.
    change (read_vector (write_vector (position cam) camPos st) (position cam) = camPos).
    apply read_write_eq. }
  assert (Htgt1 : read_vector st1 (target ctl) = center) by apply read_write_eq.
  destruct (controls_update_shape st1 _ ctl Hcam1 Hctl1) as (s & p & t & Hupd).
  assert (Hread : forall l, read_vector (controls_update st1) l = read_vector st1 l).
  { intros l. apply controls_update_read. intros c Hc. rewrite Hctl1 in Hc. by injection Hc as <-. }
  set (st2 := controls_update st1) in *.
  assert (Hdom : position cam ∈ dom (vectors (heap st2))
                 /\ target ctl ∈ dom (vectors (heap st2))).
  { rewrite Hupd. cbn. rewrite !dom_insert_L. set_solver. }
  destruct (save_initial_state_spec cam' ctl st2) as (sp & stg & Hsave & Hsp & Hstg & Hdiff).
  assert (Hsp1 : sp <> position cam) by (intros ->; tauto).
  assert (Hsp2 : sp <> target ctl) by (intros ->; tauto).
  assert (Hst1 : stg <> position cam) by (intros ->; tauto).
  assert (Hst2 : stg <> target ctl) by (intros ->; tauto).
  eexists _, (updateProjectionMatrix cam'), _, (mkCameraState sp stg).
  split; [reflexivity |]. rewrite Hsave.
  split; [rewrite Hupd; reflexivity |].
  split; [rewrite Hupd; reflexivity |].
  split; [reflexivity |].
  repeat (split; [reflexivity |]).
  change (position (updateProjectionMatrix cam')) with (position cam).
  change (position cam') with (position cam).
  cbn [target saved_position saved_target].
  assert (Hrd : forall v l, read_vector (set_initialCameraState v l) = read_vector l)
    by reflexivity.
  rewrite !Hrd.
  rewrite !(read_write_ne _ stg) by congruence.
  rewrite !(read_write_ne _ sp) by congruence.
  rewrite read_write_eq, read_write_eq, !Hread, Hpos1, Htgt1.
  repeat split; congruence.
Qed.






(** ** Material normaliser *)

Lemma has_prop_insert (k k' : string) (v : jsval) (t : gmap string jsval) :
  has_prop k (<[k' := v]> t) = if decide (k' = k) then true else has_prop k t.
Proof.
  unfold has_prop. rewrite lookup_insert. case_decide; [| reflexivity].
  apply bool_decide_eq_true. by eexists.
Qed.

Ltac map_ext :=
  apply map_eq; intros ?; rewrite ?lookup_insert; repeat case_decide; congruence.

(** A later adjustment of a texture absorbs an earlier one: its legacy
    value wins and [flipY] is cleared if either cleared it. *)
Lemma adjust_adjust (f1 f2 : bool) (e1 e2 : string) (t : gmap string jsval) :
  adjust f2 e2 (adjust f1 e1 t) = adjust (f1 || f2) e2 t.
Proof.
  unfold adjust, set_color_space.
  destruct (has_prop "colorSpace" t) eqn:Hcs; [| destruct (has_prop "encoding" t) eqn:Henc];
    destruct f1, f2; cbn [orb];
    rewrite ?has_prop_insert; repeat case_decide; try congruence;
    rewrite ?Hcs, ?Henc; try map_ext; try reflexivity.
Qed.

Lemma adjust_idempotent (f : bool) (e : string) (t : gmap string jsval) :
  adjust f e (adjust f e t) = adjust f e t.
Proof. rewrite adjust_adjust. by destruct f. Qed.

(** What the colour-space branch writes: [THREE.SRGBColorSpace] into
    [colorSpace] when the texture has it, otherwise the value [THREE] has
    under [encoding_name] into [encoding] when the texture has that. *)
Lemma set_color_space_spec (encoding_name : string) (t : gmap string jsval) :
  (has_prop "colorSpace" t = true ->
     set_color_space encoding_name t !! "colorSpace" = Some (prop THREE "SRGBColorSpace"))
  /\ (has_prop "colorSpace" t = false -> has_prop "encoding" t = true ->
       set_color_space encoding_name t !! "encoding" = Some (prop THREE encoding_name)).
Proof.
  unfold set_color_space. split.
  - intros ->. apply lookup_insert_eq.
  - intros -> ->. apply lookup_insert_eq.
Qed.

(** The base-colour slot: the colour space as above with the name
    [sRGBEncoding], and [flipY] cleared. *)
Lemma adjust_map_spec (t : gmap string jsval) :
  adjust_map t !! "flipY" = Some (JBool false)
  /\ (has_prop "colorSpace" t = true ->
       adjust_map t !! "colorSpace" = Some (prop THREE "SRGBColorSpace"))
  /\ (has_prop "colorSpace" t = false -> has_prop "encoding" t = true ->
       adjust_map t !! "encoding" = Some (prop THREE "sRGBEncoding")).
Proof.
  unfold adjust_map. destruct (set_color_space_spec "sRGBEncoding" t) as [Hcs Henc].
  split; [apply lookup_insert_eq |].
  split; intros; rewrite lookup_insert_ne by done; auto.
Qed.

(** The emissive and light-map slots read the legacy value under the name
    [SRGBEncoding]: where [THREE] has no such constant, as in every
    release of three.js, the texture's [encoding] becomes [undefined]. *)
Lemma adjust_emissiveMap_legacy (t : gmap string jsval) :
  THREE !! "SRGBEncoding" = None ->
  has_prop "colorSpace" t = false -> has_prop "encoding" t = true ->
  adjust_emissiveMap t !! "encoding" = Some Undefined
  /\ adjust_lightMap t !! "encoding" = Some Undefined.
Proof.
  intros Hnone Hcs Henc. unfold adjust_emissiveMap, adjust_lightMap.
  destruct (set_color_space_spec "SRGBEncoding" t) as [_ H]. rewrite (H Hcs Henc).
  unfold prop. by rewrite Hnone.
Qed.

Lemma apply_ops_lookup (ops : list tex_op) (ts : gmap loc (gmap string jsval)) (l : loc) :
  apply_ops ops ts !! l = adjust_at l ops <$> ts !! l.
Proof.
  unfold apply_ops. revert ts. induction ops as [| o ops IH]; intros ts; cbn.
  - by destruct (ts !! l).
  - rewrite IH. unfold apply_op. rewrite lookup_alter.
    case_decide as Ho; [rewrite Ho |]; destruct (ts !! l); reflexivity.
Qed.

(** Whatever the list, what reaches one texture is nothing or one [adjust]. *)
Lemma adjust_at_normal_form (l : loc) (ops : list tex_op) :
  (forall t, adjust_at l ops t = t)
  \/ exists f e, forall t, adjust_at l ops t = adjust f e t.
Proof.
  induction ops as [| [l' [f e]] ops IH]; cbn [adjust_at fst snd].
  - by left.
  - case_decide as Hl; [| exact IH].
    right. destruct IH as [Hid | (f' & e' & Hadj)].
    + exists f, e. intros t. apply Hid.
    + exists (f || f'), e'. intros t. rewrite Hadj. apply adjust_adjust.
Qed.

Lemma adjust_at_idempotent (l : loc) (ops : list tex_op) (t : gmap string jsval) :
  adjust_at l ops (adjust_at l ops t) = adjust_at l ops t.
Proof.
  destruct (adjust_at_normal_form l ops) as [Hid | (f & e & Hadj)].
  - by rewrite !Hid.
  - rewrite !Hadj. apply adjust_idempotent.
Qed.

Lemma apply_ops_idempotent (ops : list tex_op) (ts : gmap loc (gmap string jsval)) :
  apply_ops ops (apply_ops ops ts) = apply_ops ops ts.
Proof.
  apply map_eq. intros l. rewrite !apply_ops_lookup.
  destruct (ts !! l) as [t |]; cbn; [| reflexivity].
  by rewrite adjust_at_idempotent.
Qed.

Lemma apply_ops_app (ops1 ops2 : list tex_op) (ts : gmap loc (gmap string jsval)) :
  apply_ops (ops1 ++ ops2) ts = apply_ops ops2 (apply_ops ops1 ts).
Proof. unfold apply_ops. apply foldl_app. Qed.

Lemma on_slot_apply (slot : option loc) (flip : bool) (e : string)
    (ts : gmap loc (gmap string jsval)) :
  on_slot slot (adjust flip e) ts = apply_ops (slot_op slot flip e) ts.
Proof. by destruct slot. Qed.

Lemma adjustMaterial_eq (m : loc) (h : Heap) :
  adjustMaterial m h =
    mkHeap (vectors h) (alter mark_dirty m (materials h))
           (apply_ops (ops_of (materials h) [m]) (textures h)).
Proof.
  unfold adjustMaterial, ops_of. cbn [flat_map]. rewrite app_nil_r.
  destruct (materials h !! m) as [mat |] eqn:Hm; cbn [from_option].
  - unfold material_ops. rewrite !apply_ops_app, <- !on_slot_apply.
    f_equal. apply map_eq. intros i. rewrite lookup_alter, lookup_insert.
    case_decide; [subst; by rewrite Hm | reflexivity].
  - destruct h as [vs M ts]. cbn in *. f_equal.
    apply map_eq. intros i. rewrite lookup_alter.
    case_decide; [subst; by rewrite Hm | reflexivity].
Qed.

Lemma dirty_all_lookup (ms : list loc) (M : gmap loc Material) (i : loc) :
  dirty_all ms M !! i = (if decide (i ∈ ms) then mark_dirty else fun mat => mat) <$> M !! i.
Proof.
  unfold dirty_all. revert M. induction ms as [| m ms IH]; intros M; cbn [foldl].
  - rewrite decide_False by apply not_elem_of_nil. by destruct (M !! i).
  - rewrite IH, lookup_alter.
    destruct (decide (m = i)) as [-> | Hne]; destruct (M !! i); cbn;
      repeat case_decide; try reflexivity;
      exfalso; rewrite ?elem_of_cons in *; intuition congruence.
Qed.

Lemma dirty_all_idempotent (ms : list loc) (M : gmap loc Material) :
  dirty_all ms (dirty_all ms M) = dirty_all ms M.
Proof.
  apply map_eq. intros i. rewrite !dirty_all_lookup.
  destruct (M !! i); cbn; [| reflexivity]. by case_decide.
Qed.

(** Marking materials dirty changes no texture slot, hence none of the
    texture adjustments a traversal makes. *)
Lemma ops_of_dirty_all (ms' ms : list loc) (M : gmap loc Material) :
  ops_of (dirty_all ms' M) ms = ops_of M ms.
Proof.
  unfold ops_of. induction ms as [| m ms IH]; cbn [flat_map]; [reflexivity |].
  rewrite IH. f_equal. rewrite dirty_all_lookup.
  destruct (M !! m); cbn; [| reflexivity]. by case_decide.
Qed.

Lemma adjust_all_eq (ms : list loc) (h : Heap) :
  adjust_all ms h =
    mkHeap (vectors h) (dirty_all ms (materials h))
           (apply_ops (ops_of (materials h) ms) (textures h)).
Proof.
  unfold adjust_all. revert h. induction ms as [| m ms IH]; intros h; cbn [foldl].
  - by destruct h.
  - rewrite IH, adjustMaterial_eq. cbn [vectors materials textures].
    f_equal. change (alter mark_dirty m (materials h)) with (dirty_all [m] (materials h)).
    rewrite ops_of_dirty_all, <- apply_ops_app. f_equal.
    unfold ops_of. cbn [flat_map]. by rewrite app_nil_r.
Qed.

Lemma adjust_all_idempotent (ms : list loc) (h : Heap) :
  adjust_all ms (adjust_all ms h) = adjust_all ms h.
Proof.
  rewrite !adjust_all_eq. cbn [vectors materials textures].
  by rewrite dirty_all_idempotent, ops_of_dirty_all, apply_ops_idempotent.
Qed.

Lemma adjust_node_eq (n : Object3D) (h : Heap) :
  adjust_node n h = adjust_all (node_materials n) h.
Proof.
  unfold adjust_node, node_materials. destruct (isMesh n); [| reflexivity].
  by destruct (material n).
Qed.

Lemma Object3D_rect_nested (P : Object3D -> Prop) :
  (forall b m cs, Forall P cs -> P (Obj3D b m cs)) -> forall n, P n.
Proof.
  intros Hnode. fix IH 1. intros [b m cs]. apply Hnode.
  induction cs as [| c cs IHcs]; constructor; [apply IH | exact IHcs].
Qed.

Lemma traverse_preorder {S : Type} (callback : Object3D -> S -> S) (n : Object3D) (s : S) :
  traverse callback n s = foldl (fun s n => callback n s) s (preorder n).
Proof.
  revert s. induction n as [b m cs IH] using Object3D_rect_nested. intros s.
  cbn [traverse preorder foldl].
  generalize (callback (Obj3D b m cs) s). clear s.
  induction IH as [| c cs Hc _ IHcs]; intros s; cbn [foldl flat_map]; [reflexivity |].
  by rewrite foldl_app, <- Hc, IHcs.
Qed.

Lemma normalize_eq (model : Object3D) (h : Heap) :
  normalize model h = adjust_all (visited_materials model) h.
Proof.
  unfold normalize, visited_materials. rewrite traverse_preorder.
  generalize (preorder model). intros ns. revert h.
  induction ns as [| n ns IH]; intros h; cbn [foldl flat_map]; [reflexivity |].
  unfold adjust_all in *. by rewrite foldl_app, IH, adjust_node_eq.
Qed.

(** Traversing twice leaves the whole store as traversing once does. *)
Lemma normalize_idempotent (model : Object3D) (h : Heap) :
  normalize model (normalize model h) = normalize model h.
Proof. rewrite !normalize_eq. apply adjust_all_idempotent. Qed.

(** C4.  Applying the normalisation traversal twice to a scene graph
    leaves every texture (its [colorSpace] tag, its [encoding] value, its
    [flipY] flag) as applying it once does. *)
Theorem normalize_twice_textures (model : Object3D) (h : Heap) :
  textures (normalize model (normalize model h)) = textures (normalize model h).
Proof. by rewrite normalize_idempotent. Qed.

(** ** Error display and the load callbacks *)

Lemma showError_same_but_host (msg : string) (st : Viewer) :
  same_but_host st (showError msg st).
Proof. unfold showError. cbn. destruct (loadingEl (host st)); repeat split. Qed.

Lemma showError_visible (msg : string) (st : Viewer) : error_visible msg (showError msg st).
Proof.
  unfold showError, error_visible. cbn.
  destruct (loadingEl (host st)) eqn:Hel; cbn; rewrite ?Hel, ?last_snoc; auto.
Qed.

(** C10.  When the error callback of the load fires, the script logs the
    error and shows the failure message, and nothing else changes: the
    model group and the scene keep what they hold (a model loaded before
    stays attached and the render loop keeps drawing it), and the camera,
    the orbit target, the stored vectors and the initial-pose snapshot are
    as before. *)
Theorem onError_leaves_viewer (err : string) (st : Viewer) :
  let st' := onError err st in
  modelGroup st' = modelGroup st /\ scene st' = scene st
  /\ renderer st' = renderer st /\ frameRequested st' = frameRequested st
  /\ camera st' = camera st /\ controls st' = controls st
  /\ heap st' = heap st /\ initialCameraState st' = initialCameraState st
  /\ ("GLTF load error: " ++ err) ∈ console (host st')
  /\ error_visible "Failed to load 3D model. See console for details." st'.
Proof.
  cbn zeta. unfold onError.
  set (st1 := set_host _ st).
  destruct (showError_same_but_host "Failed to load 3D model. See console for details." st1)
    as (Hr & Hs & Hc & Hk & Hg & Hi & Hh & _ & _ & Hf & _).
  rewrite Hr, Hs, Hc, Hk, Hg, Hi, Hh, Hf.
  repeat (split; [reflexivity |]).
  split; [| apply showError_visible].
  unfold showError. cbn. destruct (loadingEl (host st)); cbn;
    rewrite !elem_of_app, !list_elem_of_singleton; auto.
Qed.

(** The success callback on a parse result without a scene, from any
    state: it returns with the error shown and without framing; the model
    group is empty afterwards, and the rest of the viewer is as it was. *)
Lemma onLoad_without_scene (gltf : GLTF) (st : Viewer) :
  gltf_model gltf = None ->
  exists st',
    onLoad gltf st = Returned st'
    /\ error_visible "Loaded file contains no scene." st'
    /\ modelGroup st' = []
    /\ (modelGroup st = [] -> modelGroup st' = modelGroup st)
    /\ scene st' = scene st /\ renderer st' = renderer st
    /\ camera st' = camera st /\ controls st' = controls st
    /\ heap st' = heap st /\ initialCameraState st' = initialCameraState st.
Proof.
  intros Hnone. unfold onLoad. rewrite Hnone. eexists. split; [reflexivity |].
  split; [apply showError_visible |].
  destruct (showError_same_but_host "Loaded file contains no scene." (set_modelGroup [] st))
    as (Hr & Hs & Hc & Hk & Hg & Hi & Hh & _).
  rewrite Hr, Hs, Hc, Hk, Hg, Hi, Hh. cbn. repeat split; congruence.
Qed.

(** ** Resize *)

(** C8.  A resize of the viewport to [(w2, h2)] sets the camera's aspect
    ratio to [w2 / h2], recomputes the projection from it, resizes the
    render surface, and leaves [fov], [near] and [far] as they are. *)
Theorem resize_updates_aspect_only (st : Viewer) (cam : Camera) (r : Renderer) (w2 h2 : num) :
  camera st = Some cam -> renderer st = Some r -> resizeListener st = true ->
  let st' := step st (Resize w2 h2) in
  exists cam' r',
    camera st' = Some cam' /\ renderer st' = Some r'
    /\ aspect cam' = (w2 / h2)%num
    /\ fov cam' = fov cam /\ near cam' = near cam /\ far cam' = far cam
    /\ position cam' = position cam
    /\ projection cam' = mkProjection (fov cam) (w2 / h2)%num (near cam) (far cam)
    /\ width r' = w2 /\ height r' = h2 /\ pixelRatio r' = pixelRatio r.
Proof.
  intros Hcam Hr Hl. cbn zeta. unfold step. cbn [resizeListener set_host]. rewrite Hl.
  unfold onWindowResize. cbn [camera set_host host clientWidth clientHeight set_clientSize].
  rewrite Hcam. cbn [renderer set_camera set_host]. rewrite Hr. cbn.
  eexists _, _. repeat split.
Qed.

(** ** Start-up without the orbit controls *)

Lemma animate_without_controls (st : Viewer) (r : Renderer) (sc : Scene) (cam : Camera) :
  controls st = None -> renderer st = Some r -> scene st = Some sc -> camera st = Some cam ->
  animate st = set_renderer (Some (render r)) (set_frameRequested true st).
Proof.
  intros Hk Hr Hs Hc. unfold animate. cbn [controls set_frameRequested]. rewrite Hk.
  cbn [renderer scene camera set_frameRequested]. by rewrite Hr, Hs, Hc.
Qed.

Lemma init_without_controls (g : Globals) (h : Host) :
  OrbitControls_missing g ->
  exists r sc cam st,
    init g (initial h) =
      showError "OrbitControls not available in this build of three.js." st
    /\ renderer st = Some r /\ frames r = 0 /\ scene st = Some sc /\ camera st = Some cam
    /\ controls st = None /\ modelGroup st = [] /\ initialCameraState st = None
    /\ loadPending st = false /\ frameRequested st = false
    /\ resizeListener st = false /\ resetListener st = false.
Proof.
  intros (H1 & H2 & H3). unfold init. rewrite H1, H2, H3. cbn.
  eexists _, _, _, _. split; [reflexivity |]. repeat split.
Qed.

Lemma run_nil (st : Viewer) : run [] st = st.
Proof. reflexivity. Qed.

Lemma frames_without_controls (n : nat) (st : Viewer) (r : Renderer) (sc : Scene) (cam : Camera) :
  controls st = None -> renderer st = Some r -> scene st = Some sc -> camera st = Some cam ->
  frameRequested st = true ->
  exists r',
    renderer (run (replicate n AnimationFrame) st) = Some r'
    /\ frames r' = (frames r + n)%nat
    /\ controls (run (replicate n AnimationFrame) st) = None.
Proof.
  revert st r. induction n as [| n IH]; intros st r Hk Hr Hs Hc Hf.
  - exists r. cbn. auto.
  - cbn [replicate run foldl step]. rewrite Hf.
    rewrite (animate_without_controls st r sc cam Hk Hr Hs Hc).
    destruct (IH (set_renderer (Some (render r)) (set_frameRequested true st)) (render r))
      as (r' & Hr' & Hfr & Hk'); try done.
    exists r'. cbn in Hfr. repeat split; [exact Hr' | lia | exact Hk'].
Qed.

(** C9 (amended).  When the page provides no [OrbitControls], start-up
    shows the error and stops there: no controls, no load started, no
    resize or reset listener.  The render loop runs all the same: it is
    started right after [init], has drawn the scene (lights, empty model
    group, default camera) once when the script ends, and draws it once
    more at every animation frame, skipping the controls. *)
Theorem boot_without_OrbitControls (g : Globals) (h : Host) :
  OrbitControls_missing g ->
  let st := boot g h in
  error_visible "OrbitControls not available in this build of three.js." st
  /\ controls st = None /\ loadPending st = false
  /\ resizeListener st = false /\ resetListener st = false
  /\ modelGroup st = [] /\ initialCameraState st = None
  /\ frameRequested st = true
  /\ forall n, exists r,
       renderer (run (replicate n AnimationFrame) st) = Some r /\ frames r = S n
       /\ controls (run (replicate n AnimationFrame) st) = None.
Proof.
  intros Hmiss. cbn zeta. unfold boot.
  destruct (init_without_controls g h Hmiss)
    as (r & sc & cam & st & Hinit & Hr & Hfr & Hs & Hc & Hk & Hg & Hi & Hp & Hq & Hl1 & Hl2).
  rewrite Hinit.
  set (msg := "OrbitControls not available in this build of three.js.").
  destruct (showError_same_but_host msg st)
    as (Er & Es & Ec & Ek & Eg & Ei & Eh & Ep & Ed & Ef & El1 & El2).
  pose proof (showError_visible msg st) as Hvis.
  set (st1 := showError msg st) in *.
  rewrite (animate_without_controls st1 r sc cam) by congruence.
  split; [exact Hvis |].
  repeat (split; [cbn; congruence |]).
  intros n.
  destruct (frames_without_controls n
              (set_renderer (Some (render r)) (set_frameRequested true st1)) (render r) sc cam)
    as (r' & Hr' & Hfr' & Hk'); try (cbn; congruence).
  exists r'. cbn in Hfr'. repeat split; [exact Hr' | lia | exact Hk'].
Qed.

(** ** The saved initial pose *)

Section Snapshot.

(** The live position and target cells, the two cells of the snapshot,
    and the values the snapshot holds. *)
Variables (pl tl : loc) (ics : CameraState) (P T : Vec3).

Hypothesis live_distinct : pl <> tl.
Hypothesis saved_position_fresh : saved_position ics <> pl /\ saved_position ics <> tl.
Hypothesis saved_target_fresh : saved_target ics <> pl /\ saved_target ics <> tl.

Local Abbreviation kept := (snapshot_kept pl tl ics P T).

Lemma snapshot_kept_write (st : Viewer) (l : loc) (v : Vec3) :
  l = pl \/ l = tl -> kept st -> kept (write_vector l v st).
Proof.
  intros Hl (Hc & Hk & Hi & Hp & HP & HT).
  repeat split; try assumption.
  - rewrite read_write_ne; [exact HP |]. destruct Hl as [-> | ->]; intros E; symmetry in E; tauto.
  - rewrite read_write_ne; [exact HT |]. destruct Hl as [-> | ->]; intros E; symmetry in E; tauto.
Qed.

Lemma snapshot_kept_controls_update (st : Viewer) :
  kept st -> kept (controls_update st).
Proof.
  intros Hinv. pose proof Hinv as ((cam & Hc & Hpl) & (ctl & Hk & Htl) & _).
  destruct (controls_update_shape st cam ctl Hc Hk) as (s & p & t & ->).
  assert (H2 : kept (write_vector (target ctl) t (write_vector (position cam) p st))).
  { apply snapshot_kept_write; [by right |]. apply snapshot_kept_write; [by left | exact Hinv]. }
  destruct H2 as (Hc2 & (ctl2 & Hk2 & Htl2) & Hrest).
  split; [exact Hc2 |]. split; [| exact Hrest].
  eexists. split; [reflexivity | exact Htl].
Qed.

Lemma snapshot_kept_animate (st : Viewer) :
  kept st -> kept (animate st).
Proof.
  intros Hinv. unfold animate.
  assert (H1 : kept (set_frameRequested true st)) by exact Hinv.
  set (st1 := set_frameRequested true st) in *.
  assert (H2 : kept (match controls st1 with
                              | Some _ => controls_update st1 | None => st1 end)).
  { destruct (controls st1); [by apply snapshot_kept_controls_update | exact H1]. }
  set (st2 := match controls st1 with Some _ => _ | None => _ end) in *.
  destruct (renderer st2) as [r |]; [| exact H2].
  destruct (scene st2); [| exact H2]. destruct (camera st2); exact H2.
Qed.

Lemma snapshot_kept_resize (st : Viewer) :
  kept st -> kept (state_of (onWindowResize st)).
Proof.
  intros ((cam & Hc & Hpl) & Hk & Hi & Hp & HP & HT). unfold onWindowResize. rewrite Hc.
  cbn [renderer set_camera].
  assert (H1 : kept
                 (set_camera (Some (updateProjectionMatrix
                    (set_aspect (clientWidth (host st) / clientHeight (host st))%num cam))) st)).
  { repeat split; try assumption. eexists. split; [reflexivity | exact Hpl]. }
  destruct (renderer st); exact H1.
Qed.

(** Once the snapshot exists, [resetView] returns, with the live position
    and target equal to the snapshot if the controls have nothing
    pending. *)
Lemma snapshot_kept_resetView (st : Viewer) :
  kept st ->
  exists st', resetView st = Returned st' /\ kept st'
    /\ ((forall ctl, controls st = Some ctl -> orbit_idle (orbit ctl)) ->
        read_vector st' pl = P /\ read_vector st' tl = T).
Proof.
  intros Hinv. pose proof Hinv as ((cam & Hc & Hpl) & (ctl & Hk & Htl) & Hi & Hp & HP & HT).
  set (st1 := write_vector (position cam) (read_vector st (saved_position ics)) st).
  assert (H1 : kept st1) by (apply snapshot_kept_write; [by left | exact Hinv]).
  set (st2 := write_vector (target ctl) (read_vector st1 (saved_target ics)) st1).
  assert (H2 : kept st2) by (apply snapshot_kept_write; [by right | exact H1]).
  assert (Hreset : resetView st = Returned (controls_update st2)).
  { unfold resetView. rewrite Hi, Hc. cbn [controls write_vector set_heap]. by rewrite Hk. }
  exists (controls_update st2). split; [exact Hreset |].
  split; [by apply snapshot_kept_controls_update |].
  intros Hidle. rewrite !controls_update_read by exact Hidle.
  destruct H1 as (_ & _ & _ & _ & _ & HT1).
  rewrite <- Htl, <- Hpl. unfold st2. split.
  - rewrite read_write_ne by congruence. unfold st1. rewrite read_write_eq. exact HP.
  - rewrite read_write_eq. exact HT1.
Qed.

Lemma snapshot_kept_step (st : Viewer) (ev : event) :
  kept st -> kept (step st ev).
Proof.
  intros Hinv. destruct ev as [| w h | | s | gltf ms ts | err]; cbn [step].
  - destruct (frameRequested st); [by apply snapshot_kept_animate | exact Hinv].
  - set (st1 := set_host _ st). assert (H1 : kept st1) by exact Hinv.
    destruct (resizeListener st1); [by apply snapshot_kept_resize | exact H1].
  - destruct (resetListener st); [| exact Hinv].
    destruct (snapshot_kept_resetView st Hinv) as (st' & -> & H' & _). exact H'.
  - destruct Hinv as (Hc & (ctl & Hk & Htl) & Hrest). rewrite Hk.
    split; [exact Hc |]. split; [| exact Hrest]. eexists. split; [reflexivity | exact Htl].
  - pose proof Hinv as (_ & _ & _ & Hp & _). rewrite Hp. exact Hinv.
  - pose proof Hinv as (_ & _ & _ & Hp & _). rewrite Hp. exact Hinv.
Qed.

Lemma snapshot_kept_run (evs : list event) (st : Viewer) :
  kept st -> kept (run evs st).
Proof.
  revert st. induction evs as [| ev evs IH]; intros st Hinv; [exact Hinv |].
  apply IH, snapshot_kept_step, Hinv.
Qed.

End Snapshot.

(** What [frameModel] saves, whatever the controls do in their [update]:
    the snapshot sits in two cells of its own and holds the live position
    and target as they are when [frameModel] returns. *)
Lemma frameModel_snapshot (object : list Object3D) (st : Viewer) (cam : Camera) (ctl : Controls) :
  camera st = Some cam -> controls st = Some ctl ->
  exists st' ics,
    frameModel object st = Returned st'
    /\ snapshot_kept (position cam) (target ctl) ics
         (read_vector st' (position cam)) (read_vector st' (target ctl))
         (set_loadPending false st')
    /\ loadPending st' = loadPending st /\ host st' = host st
    /\ (saved_position ics <> position cam /\ saved_position ics <> target ctl)
    /\ (saved_target ics <> position cam /\ saved_target ics <> target ctl).
Proof.
  intros Hcam Hctl.
  rewrite (frameModel_eq object st cam ctl Hcam Hctl). cbn zeta.
  set (cam' := set_near_far _ _ cam).
  set (st1 := write_vector (target ctl) _ _).
  assert (Hcam1 : camera st1 = Some (updateProjectionMatrix cam')) by reflexivity.
  assert (Hctl1 : controls st1 = Some ctl) by exact Hctl.
  destruct (controls_update_shape st1 _ ctl Hcam1 Hctl1) as (s & p & t & Hupd).
  set (st2 := controls_update st1) in *.
  assert (Hdom : position cam ∈ dom (vectors (heap st2))
                 /\ target ctl ∈ dom (vectors (heap st2))).
  { rewrite Hupd. cbn. rewrite !dom_insert_L. set_solver. }
  destruct (save_initial_state_spec cam' ctl st2) as (sp & stg & Hsave & Hsp & Hstg & Hdiff).
  assert (Hsp1 : sp <> position cam) by (intros ->; tauto).
  assert (Hsp2 : sp <> target ctl) by (intros ->; tauto).
  assert (Hst1 : stg <> position cam) by (intros ->; tauto).
  assert (Hst2 : stg <> target ctl) by (intros ->; tauto).
  eexists _, (mkCameraState sp stg). split; [reflexivity |].
  rewrite Hsave.
  assert (Hrd : forall v b l, read_vector (set_loadPending b (set_initialCameraState v l))
                              = read_vector l) by reflexivity.
  assert (Hrd' : forall v l, read_vector (set_initialCameraState v l) = read_vector l)
    by reflexivity.
  split; [| split; [rewrite Hupd; reflexivity |
            split; [rewrite Hupd; reflexivity | by cbn [saved_position saved_target]]]].
  repeat split.
  - rewrite Hupd. eexists. split; reflexivity.
  - rewrite Hupd. eexists. split; reflexivity.
  - cbn [saved_position]. rewrite Hrd, Hrd'.
    change (position cam') with (position cam).
    rewrite !(read_write_ne _ stg) by congruence.
    rewrite read_write_eq, (read_write_ne _ sp) by congruence. reflexivity.
  - cbn [saved_target]. rewrite Hrd, Hrd'.
    rewrite read_write_eq, (read_write_ne _ stg), (read_write_ne _ sp) by congruence.
    reflexivity.
Qed.

Lemma hide_loading_same_but_host (st : Viewer) : same_but_host st (hide_loading st).
Proof. unfold hide_loading. destruct (loadingEl (host st)); repeat split. Qed.

Lemma snapshot_kept_same_but_host (pl tl : loc) (ics : CameraState) (P T : Vec3)
    (st st' : Viewer) :
  same_but_host st st' -> snapshot_kept pl tl ics P T st -> snapshot_kept pl tl ics P T st'.
Proof.
  intros (_ & _ & Hc & Hk & _ & Hi & Hh & Hp & _). unfold snapshot_kept, read_vector.
  by rewrite Hc, Hk, Hi, Hh, Hp.
Qed.

(** What [controls.update()] leaves in the two live cells, whatever the
    controls have pending. *)
Lemma controls_update_pose (st : Viewer) (cam : Camera) (ctl : Controls) :
  camera st = Some cam -> controls st = Some ctl -> position cam <> target ctl ->
  read_vector (controls_update st) (position cam) =
    fst (snd (orbit_update (orbit ctl) (read_vector st (position cam))
                (read_vector st (target ctl))))
  /\ read_vector (controls_update st) (target ctl) =
       snd (snd (orbit_update (orbit ctl) (read_vector st (position cam))
                   (read_vector st (target ctl))))
  /\ forall l, l <> position cam -> l <> target ctl ->
       read_vector (controls_update st) l = read_vector st l.
Proof.
  intros Hcam Hctl Hne. unfold controls_update. rewrite Hctl, Hcam.
  destruct (orbit_update _ _ _) as [s [p t]]. cbn [fst snd].
  assert (Hrd : forall c v, read_vector (set_controls c v) = read_vector v) by reflexivity.
  rewrite !Hrd. split; [| split].
  - rewrite read_write_ne by congruence. apply read_write_eq.
  - apply read_write_eq.
  - intros l H1 H2. by rewrite !read_write_ne by congruence.
Qed.

(** Once the snapshot exists, [resetView] returns with the snapshot as it
    was and the live position and target as the controls' [update] makes
    them from the snapshot. *)
Lemma snapshot_kept_resetView_pose (pl tl : loc) (ics : CameraState) (P T : Vec3)
    (st : Viewer) (ctl : Controls) :
  pl <> tl ->
  saved_position ics <> pl /\ saved_position ics <> tl ->
  saved_target ics <> pl /\ saved_target ics <> tl ->
  snapshot_kept pl tl ics P T st -> controls st = Some ctl ->
  exists st',
    resetView st = Returned st'
    /\ read_vector st' pl = fst (snd (orbit_update (orbit ctl) P T))
    /\ read_vector st' tl = snd (snd (orbit_update (orbit ctl) P T))
    /\ read_vector st' (saved_position ics) = P
    /\ read_vector st' (saved_target ics) = T.
Proof.
  intros Hne [Hp1 Hp2] [Ht1 Ht2] ((cam & Hc & Hpl) & (ctl' & Hk & Htl) & Hi & Hp & HP & HT) Hctl.
  rewrite Hk in Hctl. injection Hctl as <-.
  set (st1 := write_vector (position cam) (read_vector st (saved_position ics)) st).
  set (st2 := write_vector (target ctl') (read_vector st1 (saved_target ics)) st1).
  assert (Hreset : resetView st = Returned (controls_update st2)).
  { unfold resetView. rewrite Hi, Hc. cbn [controls write_vector set_heap]. by rewrite Hk. }
  exists (controls_update st2). split; [exact Hreset |].
  assert (HT1 : read_vector st1 (saved_target ics) = T).
  { unfold st1. rewrite read_write_ne by congruence. exact HT. }
  assert (Hpos2 : read_vector st2 (position cam) = P).
  { unfold st2. rewrite read_write_ne by congruence. unfold st1.
    rewrite read_write_eq. exact HP. }
  assert (Htgt2 : read_vector st2 (target ctl') = T).
  { unfold st2. rewrite read_write_eq. exact HT1. }
  destruct (controls_update_pose st2 cam ctl') as (Hrp & Hrt & Hother);
    [exact Hc | exact Hk | congruence |].
  rewrite Hpos2, Htgt2 in Hrp, Hrt. rewrite <- Hpl, <- Htl.
  split; [exact Hrp |]. split; [exact Hrt |].
  rewrite !Hother by congruence. unfold st2.
  rewrite !(read_write_ne _ (target ctl')) by congruence. unfold st1.
  rewrite !(read_write_ne _ (position cam)) by congruence. by split.
Qed.

(** After a load that succeeded the snapshot sits in two cells of its
    own and holds the live position and target as the load left them. *)
Lemma load_snapshot_kept
    (st0 : Viewer) (gltf : GLTF) (ms : gmap loc Material) (ts : gmap loc (gmap string jsval))
    (model : Object3D) (cam : Camera) (ctl : Controls) :
  loadPending st0 = true -> gltf_model gltf = Some model ->
  camera st0 = Some cam -> controls st0 = Some ctl ->
  let st1 := step st0 (LoadOk gltf ms ts) in
  exists ics,
    snapshot_kept (position cam) (target ctl) ics
      (read_vector st1 (position cam)) (read_vector st1 (target ctl)) st1
    /\ (saved_position ics <> position cam /\ saved_position ics <> target ctl)
    /\ (saved_target ics <> position cam /\ saved_target ics <> target ctl).
Proof.
  intros Hpend Hmodel Hcam Hctl st1.
  set (stA := set_heap (normalize model
                (heap (set_heap (set_textures ts (set_materials ms (heap st0)))
                         (set_loadPending false st0))))
              (set_modelGroup [model]
                 (set_heap (set_textures ts (set_materials ms (heap st0)))
                    (set_loadPending false st0)))).
  destruct (frameModel_snapshot (modelGroup stA) stA cam ctl Hcam Hctl)
    as (st' & ics & Hret & Hkept & Hp' & _ & Hfp & Hft).
  assert (Hst1 : st1 = hide_loading st').
  { unfold st1, step. rewrite Hpend. unfold onLoad. rewrite Hmodel.
    change (state_of (match frameModel (modelGroup stA) stA with
                      | Returned st => Returned (hide_loading st)
                      | Threw st => Threw st
                      end) = hide_loading st').
    by rewrite Hret. }
  assert (Hkept' : snapshot_kept (position cam) (target ctl) ics
                     (read_vector st' (position cam)) (read_vector st' (target ctl)) st').
  { destruct Hkept as (Hc & Hk & Hi & _ & HP & HT). repeat split; assumption. }
  assert (Hrd : forall l, read_vector st1 l = read_vector st' l).
  { intros l. rewrite Hst1. unfold read_vector.
    destruct (hide_loading_same_but_host st') as (_ & _ & _ & _ & _ & _ & -> & _). reflexivity. }
  exists ics. split; [| by split].
  rewrite !Hrd, Hst1. eapply snapshot_kept_same_but_host; [apply hide_loading_same_but_host |].
  exact Hkept'.
Qed.

(** C6 (amended).  After a load that succeeded, and whatever happens next
    (pointer input to the controls, animation frames that move the camera
    and the target, resizes, resets, late loader callbacks), the snapshot
    is a copy in cells of its own: it holds the values the live position
    and target had when [frameModel] returned, wherever the live ones have
    been moved, and [resetView] leaves it so.  [resetView] returns with
    the live position and target as the [update] of the controls, which
    ends it, makes them from the snapshot: equal to the snapshot when the
    controls have no motion pending at that time, and moved on from it by
    the pending motion otherwise. *)
Theorem resetView_restores_snapshot
    (st0 : Viewer) (gltf : GLTF) (ms : gmap loc Material) (ts : gmap loc (gmap string jsval))
    (model : Object3D) (cam : Camera) (ctl : Controls) (evs : list event) :
  loadPending st0 = true -> gltf_model gltf = Some model ->
  camera st0 = Some cam -> controls st0 = Some ctl -> position cam <> target ctl ->
  let st1 := step st0 (LoadOk gltf ms ts) in
  let st2 := run evs st1 in
  exists ics cam2 ctl2 st3,
    initialCameraState st1 = Some ics /\ initialCameraState st2 = Some ics
    /\ read_vector st1 (saved_position ics) = read_vector st1 (position cam)
    /\ read_vector st1 (saved_target ics) = read_vector st1 (target ctl)
    /\ read_vector st2 (saved_position ics) = read_vector st1 (position cam)
    /\ read_vector st2 (saved_target ics) = read_vector st1 (target ctl)
    /\ camera st2 = Some cam2 /\ position cam2 = position cam
    /\ controls st2 = Some ctl2 /\ target ctl2 = target ctl
    /\ resetView st2 = Returned st3
    /\ read_vector st3 (saved_position ics) = read_vector st1 (position cam)
    /\ read_vector st3 (saved_target ics) = read_vector st1 (target ctl)
    /\ read_vector st3 (position cam) =
         fst (snd (orbit_update (orbit ctl2) (read_vector st1 (position cam))
                     (read_vector st1 (target ctl))))
    /\ read_vector st3 (target ctl) =
         snd (snd (orbit_update (orbit ctl2) (read_vector st1 (position cam))
                     (read_vector st1 (target ctl))))
    /\ (orbit_idle (orbit ctl2) ->
        read_vector st3 (position cam) = read_vector st1 (position cam)
        /\ read_vector st3 (target ctl) = read_vector st1 (target ctl)).
Proof.
  intros Hpend Hmodel Hcam Hctl Hne st1 st2.
  destruct (load_snapshot_kept st0 gltf ms ts model cam ctl Hpend Hmodel Hcam Hctl)
    as (ics & Hkept1 & Hfp & Hft).
  fold st1 in Hkept1.
  pose proof (snapshot_kept_run _ _ _ _ _ Hne Hfp Hft evs st1 Hkept1) as Hkept2. fold st2 in Hkept2.
  pose proof Hkept2 as ((cam2 & Hc2 & Hpl2) & (ctl2 & Hk2 & Htl2) & Hi2 & _ & HP2 & HT2).
  destruct (snapshot_kept_resetView_pose _ _ _ _ _ st2 ctl2 Hne Hfp Hft Hkept2 Hk2)
    as (st3 & Hreset & Hpos3 & Htgt3 & Hsp3 & Hst3).
  destruct Hkept1 as (_ & _ & Hi1 & _ & HP1 & HT1).
  exists ics, cam2, ctl2, st3.
  repeat (split; [assumption |]).
  intros Hidle. rewrite Hpos3, Htgt3.
  by rewrite (Hidle (read_vector st1 (position cam)) (read_vector st1 (target ctl))).
Qed.

(** ** Before any load has succeeded *)

Lemma controls_update_initialCameraState (st : Viewer) :
  initialCameraState (controls_update st) = initialCameraState st.
Proof.
  unfold controls_update. destruct (controls st); [| reflexivity].
  destruct (camera st); [| reflexivity]. by destruct (orbit_update _ _ _) as [s [p t]].
Qed.

Lemma animate_initialCameraState (st : Viewer) :
  initialCameraState (animate st) = initialCameraState st.
Proof.
  unfold animate. set (st1 := set_frameRequested true st).
  set (st2 := match controls st1 with Some _ => controls_update st1 | None => st1 end).
  assert (H2 : initialCameraState st2 = initialCameraState st).
  { unfold st2.
    destruct (controls st1); [exact (controls_update_initialCameraState st1) | reflexivity]. }
  destruct (renderer st2); [| exact H2]. destruct (scene st2); [| exact H2].
  destruct (camera st2); exact H2.
Qed.

Lemma init_initialCameraState (g : Globals) (h : Host) :
  initialCameraState (init g (initial h)) = None.
Proof.
  unfold init, loadGLBModel, showError. cbn.
  repeat match goal with |- context [if ?b then _ else _] => destruct b end;
    cbn; repeat case_match; reflexivity.
Qed.

Lemma step_initialCameraState (st : Viewer) (ev : event) :
  no_successful_load ev -> initialCameraState st = None ->
  initialCameraState (step st ev) = None.
Proof.
  intros Hev Hnone. destruct ev as [| w h | | s | gltf ms ts | err]; cbn [step].
  - destruct (frameRequested st); [| exact Hnone]. by rewrite animate_initialCameraState.
  - set (st1 := set_host _ st). destruct (resizeListener st1); [| exact Hnone].
    unfold onWindowResize. destruct (camera st1); [| exact Hnone].
    cbn [renderer set_camera]. destruct (renderer st1); exact Hnone.
  - destruct (resetListener st); [| exact Hnone]. unfold resetView. by rewrite Hnone.
  - destruct (controls st); exact Hnone.
  - destruct (loadPending st); [| exact Hnone]. cbn in Hev. unfold onLoad. rewrite Hev.
    cbn [state_of].
    by destruct (showError_same_but_host "Loaded file contains no scene."
                   (set_modelGroup [] (set_heap (set_textures ts (set_materials ms (heap st)))
                                         (set_loadPending false st))))
      as (_ & _ & _ & _ & _ & -> & _).
  - destruct (loadPending st); [| exact Hnone]. unfold onError.
    by destruct (showError_same_but_host "Failed to load 3D model. See console for details."
                   (set_host (console_log ("GLTF load error: " ++ err)
                                (host (set_loadPending false st)))
                      (set_loadPending false st)))
      as (_ & _ & _ & _ & _ & -> & _).
Qed.

Lemma resetView_without_snapshot (st : Viewer) :
  initialCameraState st = None -> resetView st = Returned st.
Proof. intros Hnone. unfold resetView. by rewrite Hnone. Qed.

(** C7.  In a session in which no load has succeeded, there is no initial
    pose, and [resetView] is a no-op: it returns, it does not throw, and
    the whole state of the viewer (camera position, orbit target and
    everything else) is as before.  The same holds of a click on the reset
    button. *)
Theorem resetView_before_any_load (g : Globals) (h : Host) (evs : list event) :
  Forall no_successful_load evs ->
  let st := run evs (boot g h) in
  initialCameraState st = None /\ resetView st = Returned st /\ step st ResetClick = st.
Proof.
  intros Hevs. cbn zeta.
  assert (Hnone : initialCameraState (run evs (boot g h)) = None).
  { assert (H0 : initialCameraState (boot g h) = None).
    { unfold boot. rewrite animate_initialCameraState. apply init_initialCameraState. }
    revert H0. generalize (boot g h). induction Hevs as [| ev evs Hev _ IH]; intros st H0.
    - exact H0.
    - apply IH, step_initialCameraState; assumption. }
  split; [exact Hnone |].
  assert (Hreset : resetView (run evs (boot g h)) = Returned (run evs (boot g h)))
    by exact (resetView_without_snapshot _ Hnone).
  split; [exact Hreset |].
  cbn [step]. rewrite Hreset. by destruct (resetListener _).
Qed.

(** ** What a session keeps fixed *)

Lemma cells_kept_refl (st : Viewer) : cells_kept st st.
Proof. split; intros c Hc; exists c; auto. Qed.

Lemma cells_kept_trans (st1 st2 st3 : Viewer) :
  cells_kept st1 st2 -> cells_kept st2 st3 -> cells_kept st1 st3.
Proof.
  intros [Hc12 Hk12] [Hc23 Hk23]. split.
  - intros cam3 H3. destruct (Hc23 _ H3) as (cam2 & H2 & Hf & Hp).
    destruct (Hc12 _ H2) as (cam1 & H1 & Hf' & Hp'). exists cam1. repeat split; congruence.
  - intros ctl3 H3. destruct (Hk23 _ H3) as (ctl2 & H2 & Ht).
    destruct (Hk12 _ H2) as (ctl1 & H1 & Ht'). exists ctl1. split; congruence.
Qed.

Lemma cells_kept_same (st st' : Viewer) :
  camera st' = camera st -> controls st' = controls st -> cells_kept st st'.
Proof. intros Hc Hk. unfold cells_kept. rewrite Hc, Hk. apply cells_kept_refl. Qed.

Lemma cells_kept_controls_update (st : Viewer) : cells_kept st (controls_update st).
Proof.
  destruct (controls st) as [ctl |] eqn:Hk; [destruct (camera st) as [cam |] eqn:Hc |].
  - destruct (controls_update_shape st cam ctl Hc Hk) as (s & p & t & ->). split.
    + intros cam' H. exists cam. cbn in H. rewrite Hc in H. injection H as <-. auto.
    + intros ctl' H. exists ctl. cbn in H. injection H as <-. auto.
  - unfold controls_update. rewrite Hk, Hc. apply cells_kept_refl.
  - unfold controls_update. rewrite Hk. apply cells_kept_refl.
Qed.

Lemma cells_kept_animate (st : Viewer) : cells_kept st (animate st).
Proof.
  unfold animate. set (st1 := set_frameRequested true st).
  set (st2 := match controls st1 with Some _ => controls_update st1 | None => st1 end).
  assert (H2 : cells_kept st st2).
  { unfold st2. destruct (controls st1); [| exact (cells_kept_refl st)].
    exact (cells_kept_controls_update st1). }
  destruct (renderer st2); [| exact H2]. destruct (scene st2); [| exact H2].
  destruct (camera st2); exact H2.
Qed.

Lemma cells_kept_resize (st : Viewer) : cells_kept st (state_of (onWindowResize st)).
Proof.
  unfold onWindowResize. destruct (camera st) as [cam |] eqn:Hc; [| apply cells_kept_refl].
  cbn [renderer set_camera].
  assert (H1 : cells_kept st
                 (set_camera (Some (updateProjectionMatrix
                    (set_aspect (clientWidth (host st) / clientHeight (host st))%num cam))) st)).
  { split.
    - intros cam' H. exists cam. cbn in H. injection H as <-. auto.
    - intros ctl' H. exists ctl'. auto. }
  destruct (renderer st); exact H1.
Qed.

Lemma cells_kept_resetView (st : Viewer) : cells_kept st (state_of (resetView st)).
Proof.
  unfold resetView. destruct (initialCameraState st); [| apply cells_kept_refl].
  destruct (camera st); [| apply cells_kept_refl].
  cbn [controls write_vector set_heap].
  destruct (controls st) eqn:Hk; [| by apply cells_kept_same].
  cbn [state_of]. eapply cells_kept_trans; [| apply cells_kept_controls_update].
  by apply cells_kept_same.
Qed.

Lemma cells_kept_save_initial_state (cam : Camera) (ctl : Controls) (st : Viewer) :
  cells_kept st (save_initial_state cam ctl st).
Proof.
  destruct (save_initial_state_spec cam ctl st) as (p & t & -> & _). by apply cells_kept_same.
Qed.

Lemma cells_kept_frameModel (object : list Object3D) (st : Viewer) :
  cells_kept st (state_of (frameModel object st)).
Proof.
  destruct (camera st) as [cam |] eqn:Hc;
    [| unfold frameModel; rewrite Hc; apply cells_kept_refl].
  assert (Hcam : forall n f, cells_kept st
            (set_camera (Some (updateProjectionMatrix (set_near_far n f cam))) st)).
  { intros n f. split.
    - intros cam' H. exists cam. cbn in H. injection H as <-. auto.
    - intros ctl' H. exists ctl'. auto. }
  destruct (controls st) as [ctl |] eqn:Hk.
  - rewrite (frameModel_eq object st cam ctl Hc Hk). cbn zeta. cbn [state_of].
    eapply cells_kept_trans; [| apply cells_kept_save_initial_state].
    eapply cells_kept_trans; [| apply cells_kept_controls_update].
    eapply cells_kept_trans; [apply Hcam |]. by apply cells_kept_same.
  - unfold frameModel. rewrite Hc. cbn [controls set_camera write_vector set_heap].
    rewrite Hk. cbn [state_of]. eapply cells_kept_trans; [apply Hcam |].
    by apply cells_kept_same.
Qed.

Lemma cells_kept_step (st : Viewer) (ev : event) : cells_kept st (step st ev).
Proof.
  destruct ev as [| w h | | s | gltf ms ts | err]; cbn [step].
  - destruct (frameRequested st); [apply cells_kept_animate | apply cells_kept_refl].
  - set (st1 := set_host _ st). destruct (resizeListener st1); [| by apply cells_kept_same].
    exact (cells_kept_resize st1).
  - destruct (resetListener st); [apply cells_kept_resetView | apply cells_kept_refl].
  - destruct (controls st) as [ctl |] eqn:Hk; [| apply cells_kept_refl]. split.
    + intros cam' H. exists cam'. auto.
    + intros ctl' H. exists ctl. cbn in H. injection H as <-. auto.
  - destruct (loadPending st); [| apply cells_kept_refl].
    set (st1 := set_heap _ _). assert (H1 : cells_kept st st1) by by apply cells_kept_same.
    eapply cells_kept_trans; [exact H1 |]. unfold onLoad.
    destruct (gltf_model gltf) as [model |].
    + set (st2 := set_heap _ _). assert (H2 : cells_kept st1 st2) by by apply cells_kept_same.
      eapply cells_kept_trans; [exact H2 |].
      pose proof (cells_kept_frameModel (modelGroup st2) st2) as H3.
      destruct (frameModel (modelGroup st2) st2) as [st3 | st3]; cbn [state_of] in *; [| exact H3].
      eapply cells_kept_trans; [exact H3 |].
      destruct (hide_loading_same_but_host st3) as (_ & _ & Hc & Hk & _).
      by apply cells_kept_same.
    + cbn [state_of].
      destruct (showError_same_but_host "Loaded file contains no scene." (set_modelGroup [] st1))
        as (_ & _ & Hc & Hk & _).
      by apply cells_kept_same.
  - destruct (loadPending st); [| apply cells_kept_refl]. unfold onError.
    destruct (showError_same_but_host "Failed to load 3D model. See console for details."
                (set_host (console_log ("GLTF load error: " ++ err)
                             (host (set_loadPending false st)))
                   (set_loadPending false st)))
      as (_ & _ & Hc & Hk & _).
    by apply cells_kept_same.
Qed.

Lemma cells_kept_run (evs : list event) (st : Viewer) : cells_kept st (run evs st).
Proof.
  revert st. induction evs as [| ev evs IH]; intros st; [apply cells_kept_refl |].
  eapply cells_kept_trans; [apply cells_kept_step | apply IH].
Qed.

Lemma init_cells (g : Globals) (h : Host) :
  exists cam,
    camera (init g (initial h)) = Some cam /\ fov cam = Fin 45
    /\ forall ctl, controls (init g (initial h)) = Some ctl -> position cam <> target ctl.
Proof.
  unfold init, vec_alloc. cbn [initial host heap vectors set_vectors].
  set (p := fresh (dom (∅ : gmap loc Vec3))).
  set (v := mkVec3 (Fin 0) (Fin 5) (Fin 10)).
  set (t := fresh (dom (<[p := v]> (∅ : gmap loc Vec3)))).
  assert (Hpt : p <> t).
  { intros E. pose proof (is_fresh (dom (<[p := v]> (∅ : gmap loc Vec3)))) as Hf.
    fold t in Hf. rewrite <- E, dom_insert_L in Hf. set_solver. }
  destruct (window_OrbitControls g || THREE_OrbitControls g || THREE_controls_OrbitControls g).
  - unfold loadGLBModel, showError. eexists.
    repeat match goal with |- context [if ?b then _ else _] => destruct b end;
      cbn; repeat case_match; (split; [reflexivity |]); (split; [reflexivity |]);
      intros ctl Hctl; injection Hctl as <-; exact Hpt.
  - unfold showError. eexists. cbn. repeat case_match;
      (split; [reflexivity |]); (split; [reflexivity |]); intros ctl Hctl; discriminate Hctl.
Qed.

(** In every session the camera has the field of view [init] gave it, 45
    degrees, and its position and the orbit target are two vectors. *)
Lemma session_camera (g : Globals) (h : Host) (evs : list event) (cam : Camera) :
  camera (run evs (boot g h)) = Some cam ->
  fov cam = Fin 45
  /\ forall ctl, controls (run evs (boot g h)) = Some ctl -> position cam <> target ctl.
Proof.
  intros Hcam.
  assert (Hkept : cells_kept (init g (initial h)) (run evs (boot g h))).
  { eapply cells_kept_trans; [apply cells_kept_animate | apply cells_kept_run]. }
  destruct Hkept as [Hc Hk]. destruct (Hc cam Hcam) as (cam0 & Hcam0 & Hf & Hp).
  destruct (init_cells g h) as (cam0' & Hcam0' & Hf0 & Hne).
  rewrite Hcam0 in Hcam0'. injection Hcam0' as <-.
  split; [congruence |]. intros ctl Hctl. destruct (Hk ctl Hctl) as (ctl0 & Hctl0 & Ht).
  rewrite Hp, Ht. by apply Hne.
Qed.

Lemma animate_camera (st : Viewer) : camera (animate st) = camera st.
Proof.
  unfold animate. set (st1 := set_frameRequested true st).
  set (st2 := match controls st1 with Some _ => controls_update st1 | None => st1 end).
  assert (H2 : camera st2 = camera st).
  { unfold st2. destruct (controls st1) as [ctl |] eqn:Hk; [| reflexivity].
    destruct (camera st1) as [cam |] eqn:Hc.
    - destruct (controls_update_shape st1 cam ctl Hc Hk) as (s & p & t & ->). reflexivity.
    - unfold controls_update. by rewrite Hk, Hc. }
  rewrite <- H2. destruct (renderer st2); [| reflexivity]. destruct (scene st2); [| reflexivity].
  destruct (camera st2) eqn:Hc; exact Hc.
Qed.

Lemma animate_controls (st : Viewer) :
  is_Some (controls st) -> is_Some (controls (animate st)).
Proof.
  intros [ctl Hk]. unfold animate. set (st1 := set_frameRequested true st).
  set (st2 := match controls st1 with Some _ => controls_update st1 | None => st1 end).
  assert (H2 : is_Some (controls st2)).
  { unfold st2. change (controls st1) with (controls st). rewrite Hk.
    destruct (camera st1) as [cam |] eqn:Hc.
    - destruct (controls_update_shape st1 cam ctl Hc Hk) as (s & p & t & ->). by eexists.
    - unfold controls_update. change (controls st1) with (controls st). rewrite Hk, Hc.
      by exists ctl. }
  destruct (renderer st2); [| exact H2]. destruct (scene st2); [| exact H2].
  destruct (camera st2); exact H2.
Qed.

(** On a page that provides the controls, the script ends with a camera
    and controls in place. *)
Lemma boot_with_controls (g : Globals) (h : Host) :
  window_OrbitControls g || THREE_OrbitControls g || THREE_controls_OrbitControls g = true ->
  exists cam ctl, camera (boot g h) = Some cam /\ controls (boot g h) = Some ctl.
Proof.
  intros Havail. unfold boot.
  destruct (init_cells g h) as (cam & Hcam & _).
  assert (Hk : is_Some (controls (init g (initial h)))).
  { unfold init, vec_alloc. rewrite Havail. unfold loadGLBModel, showError.
    repeat match goal with |- context [if ?b then _ else _] => destruct b end;
      cbn; repeat case_match; by eexists. }
  apply animate_controls in Hk as [ctl Hctl].
  exists cam, ctl. by rewrite animate_camera.
Qed.



(** ** Every state of a session *)

Lemma controls_update_frame (st : Viewer) :
  exists c vs,
    controls_update st = set_controls c (set_heap (set_vectors vs (heap st)) st)
    /\ (is_Some c <-> is_Some (controls st)).
Proof.
  unfold controls_update. destruct st as [r sc cam ctl mg ics hp ho lp dl fr rl tl].
  cbn. destruct ctl as [ctl |]; [destruct cam as [cam |] |].
  - destruct (orbit_update _ _ _) as [s [p t]]. eexists _, _. split; [reflexivity |].
    split; intros _; by eexists.
  - exists (Some ctl), (vectors hp). by destruct hp.
  - exists None, (vectors hp). by destruct hp.
Qed.

Lemma animate_frame (st : Viewer) :
  exists c vs,
    animate st =
      set_renderer (match scene st, camera st with
                    | Some _, Some _ => render <$> renderer st
                    | _, _ => renderer st
                    end)
        (set_controls c (set_heap (set_vectors vs (heap st)) (set_frameRequested true st)))
    /\ (is_Some c <-> is_Some (controls st)).
Proof.
  unfold animate. set (st1 := set_frameRequested true st).
  destruct (controls_update_frame st1) as (c & vs & Hupd & Hc).
  change (controls st1) with (controls st) in *.
  destruct (controls st) as [ctl |] eqn:Hctl.
  - exists c, vs. split; [| exact Hc]. rewrite Hupd.
    destruct st as [r sc cam ctl0 mg ics hp ho lp dl fr rl tl]. cbn.
    destruct r, sc, cam; reflexivity.
  - exists None, (vectors (heap st)). split; [| reflexivity].
    destruct st as [r sc cam ctl0 mg ics hp ho lp dl fr rl tl]. cbn in *. subst ctl0.
    destruct hp. destruct r, sc, cam; reflexivity.
Qed.

(** The fields [session_wf] reads, carried from one state to another. *)
Lemma session_wf_carried (g : Globals) (h : Host) (st st' : Viewer) :
  session_wf g h st ->
  (exists r, renderer st = Some r /\ exists r', renderer st' = Some r'
             /\ pixelRatio r' = pixelRatio r) ->
  scene st' = scene st ->
  (exists cam', camera st' = Some cam' /\ projection_current cam') ->
  frameRequested st' = frameRequested st ->
  (is_Some (controls st') <-> is_Some (controls st)) ->
  (loadPending st' = true -> loadPending st = true) ->
  (is_Some (initialCameraState st') ->
     is_Some (initialCameraState st) \/ is_Some (controls st)) ->
  resizeListener st' = resizeListener st -> resetListener st' = resetListener st ->
  dracoLoader st' = dracoLoader st ->
  session_wf g h st'.
Proof.
  intros [Hr Hsc Hcam Hfr Hctl Hlp Hics Hrl Htl Hdl] (r & Hr0 & r' & Hr' & Hpr)
    Hsc' Hcam' Hfr' Hctl' Hlp' Hics' Hrl' Htl' Hdl'.
  split.
  - exists r'. split; [exact Hr' |]. destruct Hr as (r0 & Hr1 & Hp). congruence.
  - congruence.
  - exact Hcam'.
  - congruence.
  - by rewrite Hctl'.
  - intros H. by apply Hlp, Hlp'.
  - intros H. destruct (Hics' H) as [H' | H']; [by apply Hics | by apply Hctl].
  - congruence.
  - congruence.
  - congruence.
Qed.

(** The error display and the end of the loading notice write to the
    page only, and there to the loading element, the console and the
    alerts. *)
Lemma showError_frame (msg : string) (st : Viewer) :
  exists el al,
    showError msg st =
      set_host (mkHost (clientWidth (host st)) (clientHeight (host st))
                  (devicePixelRatio (host st)) el (resetBtn (host st))
                  (console (host st) ++ [msg]) al) st.
Proof. unfold showError. cbn. destruct (loadingEl _); by eexists _, _. Qed.

Lemma hide_loading_frame (st : Viewer) :
  hide_loading st =
    set_host (mkHost (clientWidth (host st)) (clientHeight (host st))
                (devicePixelRatio (host st))
                ((fun el => mkLoadingEl (textContent el) "none" (background el))
                   <$> loadingEl (host st))
                (resetBtn (host st)) (console (host st)) (alerts (host st))) st.
Proof.
  unfold hide_loading. destruct st as [r sc cam ctl mg ics hp ho lp dl fr rl tl].
  cbn. destruct ho as [w h d el rb co al]. cbn. by destruct el.
Qed.

Lemma session_wf_set_host (g : Globals) (h : Host) (ho : Host) (st : Viewer) :
  session_wf g h st -> session_wf g h (set_host ho st).
Proof. intros [Hr Hsc Hcam Hfr Hctl Hlp Hics Hrl Htl Hdl]. by split. Qed.

Lemma session_wf_animate (g : Globals) (h : Host) (st : Viewer) :
  session_wf g h (set_frameRequested true st) -> session_wf g h (animate st).
Proof.
  intros Hwf. destruct (animate_frame st) as (c & vs & -> & Hc).
  pose proof Hwf as [(r & Hr & Hp) Hsc (cam & Hcam & Hproj) _ _ _ _ _ _ _].
  cbn in Hr, Hsc, Hcam.
  apply (session_wf_carried g h _ _ Hwf); cbn; rewrite ?Hsc, ?Hcam, ?Hr; try done.
  - exists r. split; [reflexivity |]. by exists (render r).
  - by exists cam.
  - intros H. by left.
Qed.

Lemma session_wf_boot (g : Globals) (h : Host) : session_wf g h (boot g h).
Proof.
  unfold boot. apply session_wf_animate.
  unfold init, initial, loadGLBModel, showError, vec_alloc. cbn.
  fold (OrbitControls_found g). fold (GLTFLoader_found g). fold (DRACOLoader_found g).
  destruct (OrbitControls_found g) eqn:Ho, (GLTFLoader_found g) eqn:Hl,
    (DRACOLoader_found g) eqn:Hd, (loadingEl h) eqn:Hel; cbn; rewrite ?Hel; cbn;
    (split; cbn; rewrite ?Ho, ?Hl, ?Hd; try done;
     try (by eexists); try (split; by eexists); try (by intros [])).
Qed.

Lemma session_wf_controls_update (g : Globals) (h : Host) (st : Viewer) :
  session_wf g h st -> session_wf g h (controls_update st).
Proof.
  intros Hwf. destruct (controls_update_frame st) as (c & vs & -> & Hc).
  pose proof Hwf as [(r & Hr & Hp) Hsc Hcam _ _ _ _ _ _ _].
  apply (session_wf_carried g h _ _ Hwf); cbn; try done.
  - exists r. split; [exact Hr |]. by exists r.
  - intros H. by left.
Qed.

Lemma session_wf_write_vector (g : Globals) (h : Host) (l : loc) (v : Vec3) (st : Viewer) :
  session_wf g h st -> session_wf g h (write_vector l v st).
Proof. intros [Hr Hsc Hcam Hfr Hctl Hlp Hics Hrl Htl Hdl]. by split. Qed.

Lemma session_wf_resize (g : Globals) (h : Host) (st : Viewer) :
  session_wf g h st ->
  exists st', onWindowResize st = Returned st' /\ session_wf g h st'.
Proof.
  intros Hwf. pose proof Hwf as [(r & Hr & Hp) Hsc (cam & Hcam & Hproj) _ _ _ _ _ _ _].
  unfold onWindowResize. rewrite Hcam. cbn [renderer set_camera]. rewrite Hr.
  eexists. split; [reflexivity |].
  apply (session_wf_carried g h _ _ Hwf); cbn; try done.
  - exists r. split; [exact Hr |]. by eexists.
  - by eexists.
  - intros H. by left.
Qed.

Lemma session_wf_resetView (g : Globals) (h : Host) (st : Viewer) :
  session_wf g h st ->
  exists st', resetView st = Returned st' /\ session_wf g h st'.
Proof.
  intros Hwf. pose proof Hwf as [_ _ (cam & Hcam & _) _ Hctl _ Hics _ _ _].
  unfold resetView. destruct (initialCameraState st) as [ics |] eqn:Hi.
  - rewrite Hcam. cbn [controls write_vector set_heap].
    destruct (controls st) as [ctl |] eqn:Hk.
    + eexists. split; [reflexivity |].
      by apply session_wf_controls_update, session_wf_write_vector, session_wf_write_vector.
    + exfalso. assert (H : is_Some (@None Controls)) by (apply Hctl, Hics; by eexists).
      by destruct H.
  - by exists st.
Qed.

Lemma session_wf_frameModel (g : Globals) (h : Host) (object : list Object3D) (st : Viewer) :
  session_wf g h st -> OrbitControls_found g = true ->
  exists st', frameModel object st = Returned st' /\ session_wf g h st'
              /\ is_Some (initialCameraState st').
Proof.
  intros Hwf Ho. pose proof Hwf as [(r & Hr & Hp) Hsc (cam & Hcam & _) _ Hctl _ _ _ _ _].
  destruct (proj2 Hctl Ho) as [ctl Hk].
  rewrite (frameModel_eq object st cam ctl Hcam Hk). cbn zeta.
  set (cam' := set_near_far _ _ cam). set (st1 := write_vector (target ctl) _ _).
  assert (Hwf1 : session_wf g h st1).
  { apply session_wf_write_vector.
    apply (session_wf_carried g h (write_vector (position cam)
             (mkVec3 (vx (Box3_getCenter (Box3_setFromObject object)))
                     (vy (Box3_getCenter (Box3_setFromObject object)))
                     (vz (Box3_getCenter (Box3_setFromObject object)) +
                        frame_distance (fov cam)
                          (Math_max3 (vx (Box3_getSize (Box3_setFromObject object)))
                             (vy (Box3_getSize (Box3_setFromObject object)))
                             (vz (Box3_getSize (Box3_setFromObject object)))))%num) st));
      [by apply session_wf_write_vector | ..]; cbn; try done.
    - exists r. split; [exact Hr |]. by exists r.
    - by eexists.
    - intros H. by left. }
  apply session_wf_controls_update in Hwf1.
  eexists. split; [reflexivity |].
  destruct (save_initial_state_spec cam' ctl (controls_update st1)) as (p & t & -> & _).
  split; [| by eexists].
  pose proof Hwf1 as [(r1 & Hr1 & Hp1) Hsc1 Hcam1 _ Hctl1 _ _ _ _ _].
  apply (session_wf_carried g h _ _ Hwf1); cbn; try done.
  - exists r1. split; [exact Hr1 |]. by exists r1.
  - intros _. right. by apply Hctl1.
Qed.

Lemma session_wf_onLoad (g : Globals) (h : Host) (gltf : GLTF) (st : Viewer) :
  session_wf g h st -> OrbitControls_found g = true ->
  exists st', onLoad gltf st = Returned st' /\ session_wf g h st'.
Proof.
  intros Hwf Ho. unfold onLoad.
  destruct (gltf_model gltf) as [model |].
  - set (st1 := set_heap _ _).
    assert (Hwf1 : session_wf g h st1) by (destruct Hwf; by split).
    destruct (session_wf_frameModel g h (modelGroup st1) st1 Hwf1 Ho) as (st2 & Heq & Hwf2 & _).
    rewrite Heq. rewrite (hide_loading_frame st2).
    eexists. split; [reflexivity |]. by apply session_wf_set_host.
  - destruct (showError_frame "Loaded file contains no scene." (set_modelGroup [] st))
      as (el & al & ->).
    eexists. split; [reflexivity |]. apply session_wf_set_host. destruct Hwf. by split.
Qed.

Lemma session_wf_step (g : Globals) (h : Host) (st : Viewer) (ev : event) :
  session_wf g h st -> session_wf g h (step st ev).
Proof.
  intros Hwf. destruct ev as [| w h' | | s | gltf ms ts | err]; cbn [step].
  - destruct (frameRequested st) eqn:Hfr; [| exact Hwf].
    apply session_wf_animate. destruct Hwf. by split.
  - set (st1 := set_host _ st).
    assert (Hwf1 : session_wf g h st1) by by apply session_wf_set_host.
    destruct (resizeListener st1); [| exact Hwf1].
    destruct (session_wf_resize g h st1 Hwf1) as (st' & -> & Hwf'). exact Hwf'.
  - destruct (resetListener st); [| exact Hwf].
    destruct (session_wf_resetView g h st Hwf) as (st' & -> & Hwf'). exact Hwf'.
  - destruct (controls st) as [ctl |] eqn:Hk; [| exact Hwf].
    pose proof Hwf as [(r & Hr & Hp) Hsc Hcam _ _ _ _ _ _ _].
    apply (session_wf_carried g h _ _ Hwf); cbn; try done.
    + exists r. split; [exact Hr |]. by exists r.
    + intros H. by left.
  - destruct (loadPending st) eqn:Hlp; [| exact Hwf].
    set (st1 := set_heap _ _).
    assert (Hwf1 : session_wf g h st1) by (destruct Hwf; by split).
    assert (Ho : OrbitControls_found g = true) by by apply (wf_pending g h st Hwf).
    destruct (session_wf_onLoad g h gltf st1 Hwf1 Ho) as (st' & -> & Hwf'). exact Hwf'.
  - destruct (loadPending st) eqn:Hlp; [| exact Hwf].
    unfold onError. set (st1 := set_host _ _).
    destruct (showError_frame "Failed to load 3D model. See console for details." st1)
      as (el & al & ->).
    apply session_wf_set_host. unfold st1. apply session_wf_set_host.
    destruct Hwf. by split.
Qed.

Lemma run_snoc (evs : list event) (ev : event) (st : Viewer) :
  run (evs ++ [ev])%list st = step (run evs st) ev.
Proof. unfold run. by rewrite foldl_app. Qed.

Lemma session_wf_run (g : Globals) (h : Host) (evs : list event) :
  session_wf g h (run evs (boot g h)).
Proof.
  induction evs as [| ev evs IH] using rev_ind.
  - apply session_wf_boot.
  - rewrite run_snoc. by apply session_wf_step.
Qed.

Lemma save_initial_state_frame (cam : Camera) (ctl : Controls) (st : Viewer) :
  exists ics vs,
    save_initial_state cam ctl st =
      set_initialCameraState (Some ics) (set_heap (set_vectors vs (heap st)) st).
Proof. unfold save_initial_state, vec_alloc. by eexists _, _. Qed.

(** What [frameModel] writes: the camera's clipping planes and
    projection, the controls' private state, the vector store and the
    snapshot. *)
Lemma frameModel_frame (object : list Object3D) (st : Viewer) (cam : Camera) (ctl : Controls) :
  camera st = Some cam -> controls st = Some ctl ->
  exists n f s ics vs,
    frameModel object st =
      Returned
        (set_initialCameraState (Some ics)
           (set_controls
              (Some (mkControls (target ctl) (enableDamping ctl) (dampingFactor ctl) s))
              (set_camera (Some (updateProjectionMatrix (set_near_far n f cam)))
                 (set_heap (set_vectors vs (heap st)) st)))).
Proof.
  intros Hcam Hctl. rewrite (frameModel_eq object st cam ctl Hcam Hctl). cbn zeta.
  set (n := Math_max _ _). set (f := (_ * Fin 100)%num). set (camPos := mkVec3 _ _ _).
  set (st1 := write_vector (target ctl) _ _).
  destruct (controls_update_shape st1 (updateProjectionMatrix (set_near_far n f cam)) ctl
              eq_refl Hctl) as (s & p & t & ->).
  set (st2 := set_controls _ _).
  destruct (save_initial_state_frame (set_near_far n f cam) ctl st2) as (ics & vs & ->).
  exists n, f, s, ics, vs. reflexivity.
Qed.

Lemma onLoad_frame (gltf : GLTF) (model : Object3D) (st : Viewer)
    (cam : Camera) (ctl : Controls) :
  camera st = Some cam -> controls st = Some ctl -> gltf_model gltf = Some model ->
  exists n f s ics vs,
    onLoad gltf st =
      Returned
        (hide_loading
           (set_initialCameraState (Some ics)
              (set_controls
                 (Some (mkControls (target ctl) (enableDamping ctl) (dampingFactor ctl) s))
                 (set_camera (Some (updateProjectionMatrix (set_near_far n f cam)))
                    (set_heap (set_vectors vs (normalize model (heap st)))
                       (set_modelGroup [model] st)))))).
Proof.
  intros Hcam Hctl Hmodel. unfold onLoad. rewrite Hmodel.
  set (st1 := set_heap _ _).
  destruct (frameModel_frame (modelGroup st1) st1 cam ctl Hcam Hctl)
    as (n & f & s & ics & vs & ->).
  by exists n, f, s, ics, vs.
Qed.

Lemma Math_min_Fin (x y : R) : Math_min (Fin x) (Fin y) = Fin (Rmin x y).
Proof.
  unfold Math_min. cbn. f_equal. unfold Rmax, Rmin.
  destruct (Rle_dec (- x) (- y)), (Rle_dec x y); lra.
Qed.

(** X1.  In every session the renderer keeps the pixel ratio [init] gave
    it, [Math.min(window.devicePixelRatio || 1, 2)]: a number, never
    above 2; it is 1 on a page whose [devicePixelRatio] is missing, [0]
    or [NaN], and the smaller of the device's ratio and 2 otherwise. *)
Theorem session_pixelRatio (g : Globals) (h : Host) (evs : list event) :
  exists r,
    renderer (run evs (boot g h)) = Some r
    /\ pixelRatio r = Math_min (devicePixelRatio_or_1 h) (Fin 2)
    /\ pixelRatio r <> NaN
    /\ num_ltb (Fin 2) (pixelRatio r) = false
    /\ (devicePixelRatio h = None \/ devicePixelRatio h = Some NaN
        \/ devicePixelRatio h = Some (Fin 0) -> pixelRatio r = Fin 1)
    /\ (forall x, devicePixelRatio h = Some (Fin x) -> x <> 0%R ->
        pixelRatio r = Fin (Rmin x 2)).
Proof.
  destruct (wf_renderer g h _ (session_wf_run g h evs)) as (r & Hr & Hp).
  exists r. split; [exact Hr |]. split; [exact Hp |]. rewrite Hp.
  unfold devicePixelRatio_or_1.
  split; [| split; [| split]].
  - destruct (devicePixelRatio h) as [[| | | x] |]; [| | | destruct (Req_dec_T x 0) |];
      rewrite ?Math_min_Fin; discriminate.
  - destruct (devicePixelRatio h) as [[| | | x] |]; [| | | destruct (Req_dec_T x 0) |];
      rewrite ?Math_min_Fin; cbn; try reflexivity;
      match goal with |- context [Rlt_dec ?a ?b] => destruct (Rlt_dec a b) as [Hlt |] end;
      try reflexivity; exfalso; revert Hlt; unfold Rmin; try destruct (Rle_dec _ _); lra.
  - assert (H1 : Math_min (Fin 1) (Fin 2) = Fin 1).
    { rewrite Math_min_Fin. f_equal. unfold Rmin. destruct (Rle_dec _ _); lra. }
    intros [-> | [-> | ->]]; [exact H1 | exact H1 |].
    destruct (Req_dec_T 0 0) as [_ | Hne]; [exact H1 | by destruct Hne].
  - intros x -> Hx. destruct (Req_dec_T x 0); [contradiction |]. apply Math_min_Fin.
Qed.

(** X2.  No handler of a session throws: in every state the script can
    reach, the resize handler and [resetView] return, and while the load
    is pending its success callback returns for whatever the loader
    hands over. *)
Theorem session_handlers_return (g : Globals) (h : Host) (evs : list event) :
  let st := run evs (boot g h) in
  (forall w h', exists st',
     onWindowResize (set_host (set_clientSize w h' (host st)) st) = Returned st')
  /\ (exists st', resetView st = Returned st')
  /\ (loadPending st = true ->
      forall gltf ms ts, exists st',
        onLoad gltf (set_heap (set_textures ts (set_materials ms (heap st)))
                       (set_loadPending false st)) = Returned st').
Proof.
  cbn zeta. pose proof (session_wf_run g h evs) as Hwf.
  split; [| split].
  - intros w h'.
    destruct (session_wf_resize g h _ (session_wf_set_host g h
                (set_clientSize w h' (host (run evs (boot g h)))) _ Hwf)) as (st' & Heq & _).
    by exists st'.
  - destruct (session_wf_resetView g h _ Hwf) as (st' & Heq & _). by exists st'.
  - intros Hlp gltf ms ts.
    assert (Ho : OrbitControls_found g = true) by by apply (wf_pending g h _ Hwf).
    set (st1 := set_heap _ _).
    assert (Hwf1 : session_wf g h st1) by (destruct Hwf; by split).
    destruct (session_wf_onLoad g h gltf st1 Hwf1 Ho) as (st' & Heq & _). by exists st'.
Qed.

Lemma resetView_frame (st : Viewer) :
  exists c vs,
    state_of (resetView st) = set_controls c (set_heap (set_vectors vs (heap st)) st)
    /\ (is_Some c <-> is_Some (controls st)).
Proof.
  assert (Hsame : exists c vs,
            st = set_controls c (set_heap (set_vectors vs (heap st)) st)
            /\ (is_Some c <-> is_Some (controls st))).
  { exists (controls st), (vectors (heap st)). split; [| done].
    destruct st as [r sc cam ctl mg ics hp ho lp dl fr rl tl]. by destruct hp. }
  assert (Hwrite : forall l v, exists c vs,
            write_vector l v st = set_controls c (set_heap (set_vectors vs (heap st)) st)
            /\ (is_Some c <-> is_Some (controls st))).
  { intros l v. exists (controls st), (<[l := v]> (vectors (heap st))). split; [| done].
    by destruct st as [r sc cam ctl mg ics hp ho lp dl fr rl tl]. }
  unfold resetView. destruct (initialCameraState st) as [ics |]; [| exact Hsame].
  destruct (camera st) as [cam |]; [| exact Hsame].
  cbn [controls write_vector set_heap].
  destruct (controls st) as [ctl |] eqn:Hk; [| cbn [state_of]; apply Hwrite].
  cbn [state_of]. set (st2 := write_vector (target ctl) _ _).
  destruct (controls_update_frame st2) as (c & vs & -> & Hc).
  exists c, vs. split; [| by rewrite Hc; cbn; rewrite Hk].
  by destruct st as [r sc cam0 ctl0 mg ics0 hp ho lp dl fr rl tl].
Qed.

(** What each event does to the renderer in a session: a frame is
    rendered, the canvas is resized, or nothing. *)
Lemma step_renderer (g : Globals) (h : Host) (st : Viewer) (ev : event) :
  session_wf g h st ->
  renderer (step st ev) =
    match ev with
    | AnimationFrame => render <$> renderer st
    | Resize w h' => if resizeListener st then setSize w h' <$> renderer st else renderer st
    | _ => renderer st
    end.
Proof.
  intros Hwf.
  pose proof Hwf as [(r & Hr & Hp) Hsc (cam & Hcam & Hproj) Hfr Hctl Hlp _ _ _ _].
  destruct ev as [| w h' | | s | gltf ms ts | err]; cbn [step].
  - rewrite Hfr. destruct (animate_frame st) as (c & vs & -> & _). cbn.
    by rewrite Hsc, Hcam.
  - cbn [resizeListener set_host]. destruct (resizeListener st); [| reflexivity].
    unfold onWindowResize. cbn [camera set_host]. rewrite Hcam.
    cbn [renderer set_camera set_host]. by rewrite Hr.
  - destruct (resetListener st); [| reflexivity].
    by destruct (resetView_frame st) as (c & vs & -> & _).
  - by destruct (controls st).
  - destruct (loadPending st) eqn:Hpend; [| reflexivity].
    destruct (proj2 Hctl (proj1 (Hlp eq_refl))) as [ctl Hk].
    set (st1 := set_heap _ _).
    destruct (gltf_model gltf) as [model |] eqn:Hmodel.
    + destruct (onLoad_frame gltf model st1 cam ctl Hcam Hk Hmodel)
        as (n & f & s & ics & vs & ->).
      cbn [state_of]. by rewrite hide_loading_frame.
    + unfold onLoad. rewrite Hmodel. cbn [state_of].
      by destruct (showError_frame "Loaded file contains no scene." (set_modelGroup [] st1))
        as (el & al & ->).
  - destruct (loadPending st); [| reflexivity]. unfold onError. set (st1 := set_host _ _).
    by destruct (showError_frame "Failed to load 3D model. See console for details." st1)
      as (el & al & ->).
Qed.

Lemma boot_frames (g : Globals) (h : Host) : frames_of (boot g h) = 1.
Proof.
  unfold boot, frames_of. destruct (animate_frame (init g (initial h))) as (c & vs & -> & _).
  cbn [renderer set_renderer].
  unfold init, initial, loadGLBModel, showError, vec_alloc. cbn.
  fold (OrbitControls_found g). fold (GLTFLoader_found g). fold (DRACOLoader_found g).
  destruct (OrbitControls_found g), (GLTFLoader_found g), (DRACOLoader_found g),
    (loadingEl h) eqn:Hel; cbn; rewrite ?Hel; reflexivity.
Qed.

(** X3.  The render loop: the script renders one frame when it starts
    and one more at each animation frame, whatever else happens; resizes,
    clicks, pointer input and the end of the load render nothing. *)
Theorem session_frames (g : Globals) (h : Host) (evs : list event) :
  frames_of (run evs (boot g h)) = S (animation_frames evs)
  /\ frameRequested (run evs (boot g h)) = true.
Proof.
  split; [| exact (wf_frame g h _ (session_wf_run g h evs))].
  assert (Hgen : forall st, session_wf g h st ->
            frames_of (run evs st) = animation_frames evs + frames_of st).
  { induction evs as [| ev evs IH]; intros st Hwf; [reflexivity |].
    change (run (ev :: evs) st) with (run evs (step st ev)).
    rewrite (IH _ (session_wf_step g h st ev Hwf)).
    unfold frames_of at 1. rewrite (step_renderer g h st ev Hwf).
    destruct Hwf as [(r & Hr & _) _ _ _ _ _ _ _ _ _]. unfold frames_of. rewrite Hr.
    destruct ev; cbn; try lia. destruct (resizeListener st); cbn; lia. }
  rewrite (Hgen _ (session_wf_boot g h)), boot_frames. lia.
Qed.

(** ** Start-up with the controls *)

Lemma boot_page (g : Globals) (h : Host) :
  host (boot g h) = host (init g (initial h))
  /\ loadPending (boot g h) = loadPending (init g (initial h))
  /\ modelGroup (boot g h) = modelGroup (init g (initial h))
  /\ initialCameraState (boot g h) = initialCameraState (init g (initial h)).
Proof.
  unfold boot. by destruct (animate_frame (init g (initial h))) as (c & vs & -> & _).
Qed.

(** While no load is pending and nothing is shown, an event leaves the
    loading element, the console and the alerts as they are, shows no
    model and takes no snapshot. *)
Lemma step_idle (st : Viewer) (ev : event) :
  loadPending st = false -> initialCameraState st = None ->
  loadPending (step st ev) = false /\ initialCameraState (step st ev) = None
  /\ modelGroup (step st ev) = modelGroup st
  /\ loadingEl (host (step st ev)) = loadingEl (host st)
  /\ console (host (step st ev)) = console (host st)
  /\ alerts (host (step st ev)) = alerts (host st).
Proof.
  intros Hlp Hics. destruct ev as [| w h' | | s | gltf ms ts | err]; cbn [step].
  - destruct (frameRequested st); [| done].
    by destruct (animate_frame st) as (c & vs & -> & _).
  - cbn [resizeListener set_host]. destruct (resizeListener st); [| done].
    unfold onWindowResize. cbn [camera set_host]. destruct (camera st); [| done].
    cbn [renderer set_camera set_host]. by destruct (renderer st).
  - destruct (resetListener st); [| done].
    by destruct (resetView_frame st) as (c & vs & -> & _).
  - by destruct (controls st).
  - by rewrite Hlp.
  - by rewrite Hlp.
Qed.

Lemma run_idle (evs : list event) (st : Viewer) :
  loadPending st = false -> initialCameraState st = None ->
  loadPending (run evs st) = false /\ initialCameraState (run evs st) = None
  /\ modelGroup (run evs st) = modelGroup st
  /\ loadingEl (host (run evs st)) = loadingEl (host st)
  /\ console (host (run evs st)) = console (host st)
  /\ alerts (host (run evs st)) = alerts (host st).
Proof.
  revert st. induction evs as [| ev evs IH]; intros st Hlp Hics; [done |].
  change (run (ev :: evs) st) with (run evs (step st ev)).
  destruct (step_idle st ev Hlp Hics) as (Hlp' & Hics' & Hmg' & Hel' & Hc' & Hal').
  rewrite <- Hmg', <- Hel', <- Hc', <- Hal'. by apply IH.
Qed.

Lemma error_visible_run_idle (msg : string) (evs : list event) (st : Viewer) :
  loadPending st = false -> initialCameraState st = None ->
  error_visible msg st -> error_visible msg (run evs st).
Proof.
  intros Hlp Hics Hvis. destruct (run_idle evs st Hlp Hics) as (_ & _ & _ & Hel & Hc & Hal).
  unfold error_visible in *. by rewrite Hel, Hc, Hal.
Qed.

(** X4.  On a page that provides the controls and no GLTF loader, the
    error is shown and no load is started, but start-up goes on: the
    controls exist and the listeners are registered.  For the rest of the
    session the error stays on display, no model is shown and no initial
    pose is stored. *)
Theorem session_without_GLTFLoader (g : Globals) (h : Host) (evs : list event) :
  OrbitControls_found g = true -> GLTFLoader_found g = false ->
  let st := run evs (boot g h) in
  error_visible "GLTFLoader not available in this build of three.js." st
  /\ is_Some (controls st)
  /\ resizeListener st = true /\ resetListener st = resetBtn h
  /\ loadPending st = false /\ modelGroup st = [] /\ initialCameraState st = None.
Proof.
  intros Ho Hl. cbn zeta.
  assert (H0 : error_visible "GLTFLoader not available in this build of three.js."
                 (boot g h)
               /\ loadPending (boot g h) = false
               /\ initialCameraState (boot g h) = None
               /\ modelGroup (boot g h) = []).
  { unfold error_visible. destruct (boot_page g h) as (-> & -> & -> & ->).
    unfold init, initial, loadGLBModel, showError, vec_alloc. cbn.
    fold (OrbitControls_found g). fold (GLTFLoader_found g). rewrite Ho, Hl. cbn.
    destruct (loadingEl h) eqn:Hel; cbn; rewrite ?Hel; by rewrite !last_snoc. }
  destruct H0 as (Hvis & Hlp & Hics & Hmg).
  destruct (run_idle evs _ Hlp Hics) as (Hlp' & Hics' & Hmg' & _).
  pose proof (error_visible_run_idle _ evs _ Hlp Hics Hvis) as Hvis'.
  pose proof (session_wf_run g h evs) as Hwf.
  split; [exact Hvis' |]. split; [by apply (wf_controls g h _ Hwf) |].
  split; [by rewrite (wf_resize g h _ Hwf) |].
  split; [by rewrite (wf_reset g h _ Hwf), Ho |].
  split; [exact Hlp' |]. split; [congruence | exact Hics'].
Qed.

(** X5.  The Draco decoder is optional: on a page with the controls and
    the GLTF loader the load is started whether the decoder is there or
    not, and no error is shown; without it a warning goes to the console,
    with it the decoder is attached to the loader and nothing is
    logged. *)
Theorem boot_DRACOLoader_optional (g : Globals) (h : Host) :
  OrbitControls_found g = true -> GLTFLoader_found g = true ->
  loadPending (boot g h) = true
  /\ dracoLoader (boot g h) = DRACOLoader_found g
  /\ loadingEl (host (boot g h)) = loadingEl h
  /\ alerts (host (boot g h)) = alerts h
  /\ console (host (boot g h)) =
       (if DRACOLoader_found g then console h
        else console h ++
             ["DRACOLoader not available - Draco compressed meshes may not load properly"])%list.
Proof.
  intros Ho Hl. destruct (boot_page g h) as (-> & -> & _).
  assert (Hd : dracoLoader (boot g h) = dracoLoader (init g (initial h))).
  { unfold boot. by destruct (animate_frame (init g (initial h))) as (c & vs & -> & _). }
  rewrite Hd.
  unfold init, initial, loadGLBModel, showError, vec_alloc. cbn.
  fold (OrbitControls_found g). fold (GLTFLoader_found g). fold (DRACOLoader_found g).
  rewrite Ho, Hl. cbn. by destruct (DRACOLoader_found g).
Qed.

(** ** A successful load *)

(** X6.  A load that succeeds while it is pending, with a file that has a
    scene: the model group holds that scene and nothing else, the
    materials and textures are those the traversal leaves, an initial
    pose is stored, and the loading notice is hidden with its text and
    background as they were; nothing is logged or alerted, the load is no
    longer pending, and the renderer and the scene are as before. *)
Theorem session_load_success (g : Globals) (h : Host) (evs : list event)
    (gltf : GLTF) (ms : gmap loc Material) (ts : gmap loc (gmap string jsval))
    (model : Object3D) :
  let st := run evs (boot g h) in
  loadPending st = true -> gltf_model gltf = Some model ->
  let st' := step st (LoadOk gltf ms ts) in
  modelGroup st' = [model]
  /\ loadPending st' = false
  /\ is_Some (initialCameraState st')
  /\ materials (heap st') =
       materials (normalize model (set_textures ts (set_materials ms (heap st))))
  /\ textures (heap st') =
       textures (normalize model (set_textures ts (set_materials ms (heap st))))
  /\ loadingEl (host st') =
       (fun el => mkLoadingEl (textContent el) "none" (background el))
         <$> loadingEl (host st)
  /\ console (host st') = console (host st) /\ alerts (host st') = alerts (host st)
  /\ renderer st' = renderer st /\ scene st' = scene st.
Proof.
  cbn zeta. intros Hlp Hmodel. pose proof (session_wf_run g h evs) as Hwf.
  destruct (wf_camera g h _ Hwf) as (cam & Hcam & _).
  destruct (proj2 (wf_controls g h _ Hwf) (proj1 (wf_pending g h _ Hwf Hlp))) as [ctl Hk].
  cbn [step]. rewrite Hlp. set (st1 := set_heap _ _).
  destruct (onLoad_frame gltf model st1 cam ctl Hcam Hk Hmodel)
    as (n & f & s & ics & vs & ->).
  cbn [state_of]. rewrite hide_loading_frame. cbn.
  split; [reflexivity |]. split; [reflexivity |]. split; [by eexists |].
  repeat (split; [reflexivity |]). reflexivity.
Qed.

(** ** The model and the load through a session *)

(** What each event does to the pending load, the model group and the
    stored pose. *)
Lemma step_load_state (g : Globals) (h : Host) (st : Viewer) (ev : event) :
  session_wf g h st ->
  match ev with
  | LoadOk gltf _ _ =>
      if loadPending st then
        loadPending (step st ev) = false
        /\ match gltf_model gltf with
           | Some model =>
               modelGroup (step st ev) = [model] /\ is_Some (initialCameraState (step st ev))
           | None =>
               modelGroup (step st ev) = []
               /\ initialCameraState (step st ev) = initialCameraState st
           end
      else step st ev = st
  | LoadFailed _ =>
      if loadPending st then
        loadPending (step st ev) = false /\ modelGroup (step st ev) = modelGroup st
        /\ initialCameraState (step st ev) = initialCameraState st
      else step st ev = st
  | _ =>
      loadPending (step st ev) = loadPending st /\ modelGroup (step st ev) = modelGroup st
      /\ initialCameraState (step st ev) = initialCameraState st
  end.
Proof.
  intros Hwf.
  pose proof Hwf as [(r & Hr & Hp) Hsc (cam & Hcam & Hproj) Hfr Hctl Hlp _ _ _ _].
  destruct ev as [| w h' | | s | gltf ms ts | err]; cbn [step].
  - rewrite Hfr. by destruct (animate_frame st) as (c & vs & -> & _).
  - cbn [resizeListener set_host]. destruct (resizeListener st); [| done].
    unfold onWindowResize. cbn [camera set_host]. rewrite Hcam.
    cbn [renderer set_camera set_host]. by rewrite Hr.
  - destruct (resetListener st); [| done].
    by destruct (resetView_frame st) as (c & vs & -> & _).
  - by destruct (controls st).
  - destruct (loadPending st) eqn:Hpend; [| reflexivity].
    destruct (proj2 Hctl (proj1 (Hlp eq_refl))) as [ctl Hk].
    set (st1 := set_heap _ _).
    destruct (gltf_model gltf) as [model |] eqn:Hmodel.
    + destruct (onLoad_frame gltf model st1 cam ctl Hcam Hk Hmodel)
        as (n & f & s & ics & vs & ->).
      cbn [state_of]. rewrite hide_loading_frame. cbn. split; [done |]. split; [done |].
      by eexists.
    + unfold onLoad. rewrite Hmodel. cbn [state_of].
      by destruct (showError_frame "Loaded file contains no scene." (set_modelGroup [] st1))
        as (el & al & ->).
  - destruct (loadPending st); [| reflexivity]. unfold onError. set (st1 := set_host _ _).
    by destruct (showError_frame "Failed to load 3D model. See console for details." st1)
      as (el & al & ->).
Qed.

Lemma boot_load_state (g : Globals) (h : Host) :
  modelGroup (boot g h) = [] /\ initialCameraState (boot g h) = None.
Proof.
  destruct (boot_page g h) as (_ & _ & -> & ->).
  unfold init, initial, loadGLBModel, showError, vec_alloc. cbn.
  fold (OrbitControls_found g). fold (GLTFLoader_found g). fold (DRACOLoader_found g).
  by destruct (OrbitControls_found g), (GLTFLoader_found g), (DRACOLoader_found g),
    (loadingEl h).
Qed.

(** The model group and the stored pose go together, and neither is
    there while the load is pending. *)
Lemma session_load_state (g : Globals) (h : Host) (evs : list event) :
  let st := run evs (boot g h) in
  (modelGroup st = [] /\ initialCameraState st = None
   \/ (exists model, modelGroup st = [model]) /\ is_Some (initialCameraState st)
      /\ loadPending st = false).
Proof.
  cbn zeta. induction evs as [| ev evs IH] using rev_ind.
  - left. apply boot_load_state.
  - rewrite run_snoc. pose proof (session_wf_run g h evs) as Hwf.
    pose proof (step_load_state g h _ ev Hwf) as Hstep.
    set (st := run evs (boot g h)) in *.
    destruct ev as [| w h' | | s | gltf ms ts | err].
    + destruct Hstep as (-> & -> & ->). exact IH.
    + destruct Hstep as (-> & -> & ->). exact IH.
    + destruct Hstep as (-> & -> & ->). exact IH.
    + destruct Hstep as (-> & -> & ->). exact IH.
    + destruct (loadPending st) eqn:Hpend;
        [| rewrite Hstep; destruct IH as [IH | (Hm & Hi & _)]; [by left | by right]].
      destruct IH as [[Hmg Hics] | (_ & _ & Habs)]; [| discriminate].
      destruct Hstep as (Hlp' & Hres). destruct (gltf_model gltf) as [model |].
      * right. destruct Hres as [Hmg' Hics']. split; [by exists model | by split].
      * left. destruct Hres as [Hmg' Hics']. split; [exact Hmg' | congruence].
    + destruct (loadPending st) eqn:Hpend;
        [| rewrite Hstep; destruct IH as [IH | (Hm & Hi & _)]; [by left | by right]].
      destruct Hstep as (Hlp' & -> & ->).
      destruct IH as [IH | (Hm & Hi & Habs)]; [by left | discriminate].
Qed.

(** C5.  In every session, when the pending load ends with a parse result
    that has no scene (neither a default scene nor a first entry of the
    scenes list), the success callback returns with the error shown and
    the load no longer pending, and without framing: the camera, the
    controls, the stored vectors and the absent initial pose are as
    before.  The scene and the renderer are untouched, and so is the model
    group, which is the empty group of the start: the script loads once. *)
Theorem onLoad_no_scene (g : Globals) (h : Host) (evs : list event)
    (gltf : GLTF) (ms : gmap loc Material) (ts : gmap loc (gmap string jsval)) :
  let st := run evs (boot g h) in
  loadPending st = true -> gltf_model gltf = None ->
  let st' := step st (LoadOk gltf ms ts) in
  onLoad gltf (set_heap (set_textures ts (set_materials ms (heap st)))
                 (set_loadPending false st)) = Returned st'
  /\ error_visible "Loaded file contains no scene." st'
  /\ loadPending st' = false
  /\ modelGroup st' = modelGroup st /\ scene st' = scene st /\ renderer st' = renderer st
  /\ camera st' = camera st /\ controls st' = controls st
  /\ vectors (heap st') = vectors (heap st)
  /\ initialCameraState st' = initialCameraState st
  /\ modelGroup st' = [] /\ initialCameraState st' = None.
Proof.
  cbn zeta. intros Hlp Hnone.
  destruct (session_load_state g h evs) as [[Hmg Hics] | (_ & _ & Habs)]; [| congruence].
  set (st := run evs (boot g h)) in *.
  set (st1 := set_heap (set_textures ts (set_materials ms (heap st)))
                (set_loadPending false st)).
  destruct (onLoad_without_scene gltf st1 Hnone)
    as (st' & Hret & Hvis & Hg & _ & Hsc & Hr & Hc & Hk & Hh & Hi).
  assert (Hstep : step st (LoadOk gltf ms ts) = st').
  { cbn [step]. rewrite Hlp. fold st1. by rewrite Hret. }
  rewrite Hstep. split; [exact Hret |]. split; [exact Hvis |].
  assert (Hp : loadPending st' = false).
  { unfold onLoad in Hret. rewrite Hnone in Hret. injection Hret as <-.
    by destruct (showError_same_but_host "Loaded file contains no scene."
                   (set_modelGroup [] st1)) as (_ & _ & _ & _ & _ & _ & _ & -> & _). }
  split; [exact Hp |]. rewrite Hg, Hsc, Hr, Hc, Hk, Hh, Hi, Hmg.
  repeat (split; [reflexivity |]). exact Hics.
Qed.

(** X16.  A model is shown exactly when an initial pose is stored, so
    that the reset button acts exactly when there is a model to go back
    to; the model group never holds more than one model, and while the
    load is pending it holds none and no pose is stored. *)
Theorem session_model_and_snapshot (g : Globals) (h : Host) (evs : list event) :
  let st := run evs (boot g h) in
  (modelGroup st = [] <-> initialCameraState st = None)
  /\ length (modelGroup st) <= 1
  /\ (loadPending st = true -> modelGroup st = [] /\ initialCameraState st = None).
Proof.
  cbn zeta.
  destruct (session_load_state g h evs) as [[Hmg Hics] | ([model Hmg] & [ics Hics] & Hlp)].
  - rewrite Hmg, Hics. cbn. split; [done |]. split; [lia | done].
  - rewrite Hmg, Hics, Hlp. cbn.
    split; [split; discriminate |]. split; [lia | discriminate].
Qed.

(** X17.  A failed load is final.  When the error callback fires on the
    pending load, the error is logged and shown, and for the rest of the
    session, whatever events follow, the failure message stays on display,
    the logged error stays in the console, no model is shown, no pose is
    stored and no load is pending. *)
Theorem session_load_failed (g : Globals) (h : Host) (evs evs' : list event) (err : string) :
  let st := run evs (boot g h) in
  loadPending st = true ->
  let st' := run evs' (step st (LoadFailed err)) in
  error_visible "Failed to load 3D model. See console for details." st'
  /\ "GLTF load error: " ++ err ∈ console (host st')
  /\ modelGroup st' = [] /\ initialCameraState st' = None /\ loadPending st' = false.
Proof.
  cbn zeta. intros Hlp.
  destruct (session_load_state g h evs) as [[Hmg Hics] | (_ & _ & Habs)]; [| congruence].
  set (st := run evs (boot g h)) in *.
  assert (Hstep : step st (LoadFailed err) = onError err (set_loadPending false st))
    by (cbn [step]; by rewrite Hlp).
  rewrite Hstep. unfold onError. set (st1 := set_host _ _).
  pose proof (showError_visible "Failed to load 3D model. See console for details." st1)
    as Hvis.
  destruct (showError_frame "Failed to load 3D model. See console for details." st1)
    as (el & al & Heq).
  rewrite Heq in Hvis |- *. set (st2 := set_host _ st1) in *.
  assert (Hlp2 : loadPending st2 = false) by reflexivity.
  assert (Hics2 : initialCameraState st2 = None) by exact Hics.
  destruct (run_idle evs' st2 Hlp2 Hics2) as (Hlp' & Hics' & Hmg' & _ & Hc' & _).
  split; [by apply error_visible_run_idle |].
  split; [| split; [by rewrite Hmg' | by split]].
  rewrite Hc'. cbn. rewrite !elem_of_app, list_elem_of_singleton. auto.
Qed.

(** ** The viewport *)

Lemma boot_viewport (g : Globals) (h : Host) : viewport_current (boot g h).
Proof.
  unfold boot, viewport_current.
  destruct (animate_frame (init g (initial h))) as (c & vs & -> & _).
  cbn [camera renderer host set_renderer set_controls set_heap set_frameRequested scene].
  unfold init, initial, loadGLBModel, showError, vec_alloc. cbn.
  fold (OrbitControls_found g). fold (GLTFLoader_found g). fold (DRACOLoader_found g).
  destruct (OrbitControls_found g), (GLTFLoader_found g), (DRACOLoader_found g),
    (loadingEl h) eqn:Hel; cbn; rewrite ?Hel; cbn; by eexists _, _.
Qed.

Lemma step_viewport (g : Globals) (h : Host) (st : Viewer) (ev : event) :
  session_wf g h st -> OrbitControls_found g = true ->
  viewport_current st -> viewport_current (step st ev).
Proof.
  intros Hwf Ho (cam & r & Hcam & Hr & Ha & Hw & Hh).
  pose proof Hwf as [_ Hsc _ Hfr Hctl Hlp _ Hrl _ _].
  destruct (proj2 Hctl Ho) as [ctl Hk].
  unfold viewport_current.
  destruct ev as [| w h' | | s | gltf ms ts | err]; cbn [step].
  - rewrite Hfr. destruct (animate_frame st) as (c & vs & -> & _). cbn.
    rewrite Hsc, Hcam, Hr. cbn. by exists cam, (render r).
  - cbn [resizeListener set_host]. rewrite Hrl, Ho.
    unfold onWindowResize. cbn [camera set_host]. rewrite Hcam.
    cbn [renderer set_camera set_host]. rewrite Hr. cbn. by eexists _, _.
  - destruct (resetListener st); [| by exists cam, r].
    destruct (resetView_frame st) as (c & vs & -> & _). by exists cam, r.
  - rewrite Hk. by exists cam, r.
  - destruct (loadPending st) eqn:Hpend; [| by exists cam, r].
    set (st1 := set_heap _ _).
    destruct (gltf_model gltf) as [model |] eqn:Hmodel.
    + destruct (onLoad_frame gltf model st1 cam ctl Hcam Hk Hmodel)
        as (n & f & s & ics & vs & ->).
      cbn [state_of]. rewrite hide_loading_frame. cbn. by eexists _, r.
    + unfold onLoad. rewrite Hmodel. cbn [state_of].
      destruct (showError_frame "Loaded file contains no scene." (set_modelGroup [] st1))
        as (el & al & ->).
      by exists cam, r.
  - destruct (loadPending st); [| by exists cam, r]. unfold onError. set (st1 := set_host _ _).
    destruct (showError_frame "Failed to load 3D model. See console for details." st1)
      as (el & al & ->).
    by exists cam, r.
Qed.

(** X7.  On a page that provides the controls, the view follows the
    container through the whole session: in every state the camera's
    aspect is [clientWidth / clientHeight], the renderer has the size of
    the container, and the projection matrix is the one of the camera's
    current [fov], [aspect], [near] and [far]. *)
Theorem session_viewport (g : Globals) (h : Host) (evs : list event) :
  OrbitControls_found g = true ->
  let st := run evs (boot g h) in
  exists cam r,
    camera st = Some cam /\ renderer st = Some r
    /\ aspect cam = (clientWidth (host st) / clientHeight (host st))%num
    /\ width r = clientWidth (host st) /\ height r = clientHeight (host st)
    /\ projection cam = mkProjection (fov cam) (aspect cam) (near cam) (far cam).
Proof.
  intros Ho. cbn zeta.
  assert (Hview : viewport_current (run evs (boot g h))).
  { induction evs as [| ev evs IH] using rev_ind; [apply boot_viewport |].
    rewrite run_snoc. apply (step_viewport g h); [apply session_wf_run | exact Ho | exact IH]. }
  destruct Hview as (cam & r & Hcam & Hr & Ha & Hw & Hh).
  exists cam, r. repeat (split; [assumption |]).
  destruct (wf_camera g h _ (session_wf_run g h evs)) as (cam' & Hcam' & Hproj).
  congruence.
Qed.

(** X8.  The resize handler does not guard against a container of height
    zero: the camera's aspect, and with it the projection, becomes
    [Infinity] for a positive width and [NaN] for width zero; the handler
    returns all the same. *)
Theorem resize_zero_height (g : Globals) (h : Host) (evs : list event) (w : R) :
  OrbitControls_found g = true -> (0 <= w)%R ->
  let st := run evs (boot g h) in
  exists st' cam',
    onWindowResize (set_host (set_clientSize (Fin w) (Fin 0) (host st)) st) = Returned st'
    /\ step st (Resize (Fin w) (Fin 0)) = st'
    /\ camera st' = Some cam'
    /\ aspect cam' = (if Req_dec_T w 0 then NaN else PInf)
    /\ proj_aspect (projection cam') = aspect cam'.
Proof.
  intros Ho Hw. cbn zeta. pose proof (session_wf_run g h evs) as Hwf.
  pose proof Hwf as [(r & Hr & _) _ (cam & Hcam & _) _ _ _ _ Hrl _ _].
  cbn [step resizeListener set_host]. rewrite Hrl, Ho.
  unfold onWindowResize. cbn [camera set_host]. rewrite Hcam.
  cbn [renderer set_camera set_host]. rewrite Hr.
  eexists _, _. split; [reflexivity |]. split; [reflexivity |]. split; [reflexivity |].
  cbn. destruct (Req_dec_T 0 0) as [_ | Hne]; [| by destruct Hne].
  destruct (Req_dec_T w 0); [done |]. destruct (Rlt_dec 0 w); [done | lra].
Qed.

(** ** The framed model in view *)

(** Half of the 45 degrees of the script's camera: [tan (PI / 8)] is
    [sqrt 2 - 1], below one half. *)
Lemma tan_PI8_lt_half : (0 < tan (PI / 8) < 1 / 2)%R.
Proof.
  pose proof PI_RGT_0 as Hpi.
  assert (Hpos : (0 < tan (PI / 8))%R) by (apply tan_gt_0; lra).
  assert (Hlt1 : (tan (PI / 8) < 1)%R).
  { rewrite <- tan_PI4. apply tan_increasing; lra. }
  split; [exact Hpos |].
  assert (Hc8 : cos (PI / 8) <> 0%R) by (apply Rgt_not_eq, cos_gt_0; lra).
  assert (Hc4 : cos (2 * (PI / 8)) <> 0%R) by (apply Rgt_not_eq, cos_gt_0; lra).
  assert (Hden : (1 - tan (PI / 8) * tan (PI / 8))%R <> 0%R) by nra.
  pose proof (tan_2a (PI / 8) Hc8 Hc4 Hden) as H2a.
  replace (2 * (PI / 8))%R with (PI / 4)%R in H2a by lra. rewrite tan_PI4 in H2a.
  set (t := tan (PI / 8)) in *.
  assert (Heq : (1 - t * t = 2 * t)%R).
  { apply (Rmult_eq_compat_r (1 - t * t)) in H2a.
    unfold Rdiv in H2a. rewrite Rmult_assoc, Rinv_l in H2a by exact Hden. lra. }
  nra.
Qed.

(** X9.  The framed model is in view.  For a camera whose half field of
    view has a tangent of at most one half (the 45 degrees of the
    script's camera are within that) and a bounding box with finite
    corners, [frameModel] leaves the camera on the axis through the
    centre of the box, looking down [-Z], such that every point of the
    box lies strictly between the near and the far plane and strictly
    inside the vertical field of view, and inside the horizontal one as
    well when the viewport is at least as wide as it is high. *)
Theorem frameModel_box_in_view
    (object : list Object3D) (st : Viewer) (cam : Camera) (ctl : Controls)
    (f x0 y0 z0 x1 y1 z1 : R) :
  camera st = Some cam -> controls st = Some ctl ->
  position cam <> target ctl -> orbit_idle (orbit ctl) ->
  fov cam = Fin f -> (0 < radians f < PI)%R -> (tan (radians f / 2) <= 1 / 2)%R ->
  Box3_setFromObject object =
    mkBox3 (mkVec3 (Fin x0) (Fin y0) (Fin z0)) (mkVec3 (Fin x1) (Fin y1) (Fin z1)) ->
  (x0 <= x1)%R -> (y0 <= y1)%R -> (z0 <= z1)%R ->
  exists st' cam' ctl' pz n fr,
    frameModel object st = Returned st'
    /\ camera st' = Some cam' /\ controls st' = Some ctl'
    /\ read_vector st' (position cam') =
         mkVec3 (Fin ((x0 + x1) * 0.5)) (Fin ((y0 + y1) * 0.5)) (Fin pz)
    /\ read_vector st' (target ctl') =
         mkVec3 (Fin ((x0 + x1) * 0.5)) (Fin ((y0 + y1) * 0.5)) (Fin ((z0 + z1) * 0.5))
    /\ near cam' = Fin n /\ far cam' = Fin fr
    /\ forall x y z,
         (x0 <= x <= x1)%R -> (y0 <= y <= y1)%R -> (z0 <= z <= z1)%R ->
         (n < pz - z < fr)%R
         /\ (Rabs (y - (y0 + y1) * 0.5) < (pz - z) * tan (radians f / 2))%R
         /\ forall a, aspect cam' = Fin a -> (1 <= a)%R ->
              (Rabs (x - (x0 + x1) * 0.5) < a * ((pz - z) * tan (radians f / 2)))%R.
Proof.
  intros Hcam Hctl Hne Hidle Hfov Hf Htan Hbox Hx Hy Hz.
  destruct (half_angle_tan_pos f Hf) as [HT _].
  destruct (frameModel_pose object st cam ctl Hcam Hctl Hne Hidle)
    as (st' & cam' & ctl' & ics & Hret & Hc & Hk & _ & _ & _ & _ & _ & Hnear & Hfar & Hp & Ht & _).
  assert (Hempty : Box3_isEmpty (Box3_setFromObject object) = false).
  { rewrite Hbox. unfold Box3_isEmpty. cbn.
    destruct (Rlt_dec x1 x0), (Rlt_dec y1 y0), (Rlt_dec z1 z0); try reflexivity; lra. }
  assert (Hsize : Box3_getSize (Box3_setFromObject object) =
                    mkVec3 (Fin (x1 - x0)) (Fin (y1 - y0)) (Fin (z1 - z0))).
  { unfold Box3_getSize. rewrite Hempty, Hbox. reflexivity. }
  assert (Hcenter : Box3_getCenter (Box3_setFromObject object) =
                      mkVec3 (Fin ((x0 + x1) * 0.5)) (Fin ((y0 + y1) * 0.5))
                             (Fin ((z0 + z1) * 0.5))).
  { unfold Box3_getCenter. rewrite Hempty, Hbox. reflexivity. }
  rewrite Hsize, Hfov in Hnear, Hfar, Hp. rewrite Hcenter in Hp, Ht.
  cbn [vx vy vz Math_max3 Math_max] in Hnear, Hfar, Hp.
  set (m := Rmax (Rmax (x1 - x0) (y1 - y0)) (z1 - z0)) in *.
  rewrite (frame_distance_Fin f m Hf) in Hnear, Hfar, Hp.
  rewrite num_div_Fin in Hnear by lra. cbn [Math_max num_mul num_add] in Hnear, Hfar, Hp.
  set (d := distance_of f m) in *.
  exists st', cam', ctl', ((z0 + z1) * 0.5 + d)%R, (Rmax 0.01 (d / 1000)), (d * 100)%R.
  split; [exact Hret |]. split; [exact Hc |]. split; [exact Hk |].
  split; [exact Hp |]. split; [exact Ht |]. split; [exact Hnear |]. split; [exact Hfar |].
  assert (Hmx : (x1 - x0 <= m)%R) by (unfold m, Rmax; repeat destruct (Rle_dec _ _); lra).
  assert (Hmy : (y1 - y0 <= m)%R) by (unfold m, Rmax; repeat destruct (Rle_dec _ _); lra).
  assert (Hmz : (z1 - z0 <= m)%R) by (unfold m, Rmax; repeat destruct (Rle_dec _ _); lra).
  set (T := tan (radians f / 2)) in *.
  set (q := (m / (2 * T))%R).
  assert (Hq : (q * T = m / 2)%R) by (unfold q; field; lra).
  assert (Hd : (d = q * 1.5 + 0.5)%R) by reflexivity.
  assert (Hm0 : (0 <= m)%R) by lra.
  assert (Hq0 : (0 <= q)%R).
  { unfold q, Rdiv. apply Rmult_le_pos; [exact Hm0 |].
    apply Rlt_le, Rinv_0_lt_compat. lra. }
  assert (Hqm : (m <= q)%R) by nra.
  intros x y z Hxr Hyr Hzr.
  assert (Hdepth : (q + 0.5 <= (z0 + z1) * 0.5 + d - z)%R) by lra.
  assert (Hview : (m / 2 < ((z0 + z1) * 0.5 + d - z) * T)%R) by nra.
  split; [split |]; [| lra | split].
  - unfold Rmax. destruct (Rle_dec _ _); lra.
  - apply Rabs_def1; lra.
  - intros a _ Ha.
    assert (Hwide : (((z0 + z1) * 0.5 + d - z) * T <= a * (((z0 + z1) * 0.5 + d - z) * T))%R)
      by nra.
    apply Rabs_def1; lra.
Qed.

(** ** The material normaliser on a whole model *)

Lemma adjust_at_invariant (P : gmap string jsval -> Prop) (l : loc) (ops : list tex_op) :
  (forall f e t, P t -> P (adjust f e t)) ->
  forall t, P t -> P (adjust_at l ops t).
Proof.
  intros Hstep. induction ops as [| o ops IH]; intros t Ht; cbn [adjust_at]; [exact Ht |].
  apply IH. case_decide; [by apply Hstep | exact Ht].
Qed.

(** What one adjustment of a texture that satisfies [I] establishes
    holds at the end, if every adjustment keeps it. *)
Lemma adjust_at_reaches (I P : gmap string jsval -> Prop) (l : loc) (o : tex_op) :
  (forall f e t, I t -> I (adjust f e t)) ->
  (forall f e t, I t -> P t -> P (adjust f e t)) ->
  (forall t, I t -> P (adjust (fst (snd o)) (snd (snd o)) t)) ->
  fst o = l ->
  forall ops t, o ∈ ops -> I t -> P (adjust_at l ops t).
Proof.
  intros HI HP Ho Hl. induction ops as [| o' ops IH]; intros t Hin Ht.
  - by apply elem_of_nil in Hin.
  - cbn [adjust_at]. apply elem_of_cons in Hin as [<- | Hin].
    + rewrite decide_True by exact Hl.
      apply (adjust_at_invariant (fun t => I t /\ P t)).
      * intros f e t' [Hi Hp]. split; [by apply HI | by apply HP].
      * split; [by apply HI | by apply Ho].
    + apply IH; [exact Hin |]. case_decide; [by apply HI | exact Ht].
Qed.

Lemma adjust_at_untouched (l : loc) (ops : list tex_op) (t : gmap string jsval) :
  (forall o, o ∈ ops -> fst o <> l) -> adjust_at l ops t = t.
Proof.
  revert t. induction ops as [| o ops IH]; intros t Hops; cbn [adjust_at]; [reflexivity |].
  rewrite decide_False by (apply Hops, elem_of_cons; by left).
  apply IH. intros o' Ho'. apply Hops, elem_of_cons. by right.
Qed.

Lemma adjust_lookup_other (f : bool) (e k : string) (t : gmap string jsval) :
  k <> "colorSpace" -> k <> "encoding" -> k <> "flipY" -> adjust f e t !! k = t !! k.
Proof.
  intros H1 H2 H3. unfold adjust, set_color_space.
  destruct f, (has_prop "colorSpace" t), (has_prop "encoding" t);
    rewrite ?lookup_insert_ne by done; reflexivity.
Qed.

Lemma adjust_has_prop (f : bool) (e k : string) (t : gmap string jsval) :
  k <> "flipY" -> has_prop k (adjust f e t) = has_prop k t.
Proof.
  intros Hk. unfold adjust, set_color_space.
  destruct (has_prop "colorSpace" t) eqn:Hcs; [| destruct (has_prop "encoding" t) eqn:Henc];
    destruct f; rewrite ?has_prop_insert; repeat case_decide; congruence.
Qed.

Lemma adjust_colorSpace (f : bool) (e : string) (t : gmap string jsval) :
  has_prop "colorSpace" t = true ->
  adjust f e t !! "colorSpace" = Some (prop THREE "SRGBColorSpace")
  /\ adjust f e t !! "encoding" = t !! "encoding".
Proof.
  intros Hcs. unfold adjust, set_color_space. rewrite Hcs.
  destruct f; split; rewrite ?(lookup_insert_ne _ "flipY") by done;
    first [apply lookup_insert_eq | by apply lookup_insert_ne].
Qed.

Lemma adjust_flipY (f : bool) (e : string) (t : gmap string jsval) :
  f = true \/ t !! "flipY" = Some (JBool false) ->
  adjust f e t !! "flipY" = Some (JBool false).
Proof.
  intros Hf. unfold adjust, set_color_space.
  destruct f; [by rewrite lookup_insert_eq |]. destruct Hf as [Hf | Hf]; [discriminate |].
  destruct (has_prop "colorSpace" t), (has_prop "encoding" t);
    rewrite ?lookup_insert_ne by done; exact Hf.
Qed.

(** The adjustments a traversal makes are those of the slots of the
    materials it visits. *)
Lemma ops_of_elem (M : gmap loc Material) (ms : list loc) (o : tex_op) :
  o ∈ ops_of M ms <-> exists m mat, m ∈ ms /\ M !! m = Some mat /\ o ∈ material_ops mat.
Proof.
  unfold ops_of. rewrite list_elem_of_In, in_flat_map. split.
  - intros (m & Hm & Ho). destruct (M !! m) as [mat |] eqn:HM; [| by destruct Ho].
    exists m, mat. by rewrite !list_elem_of_In.
  - intros (m & mat & Hm & HM & Ho). exists m. rewrite HM, <- !list_elem_of_In. done.
Qed.

Lemma material_ops_elem (mat : Material) (o : tex_op) :
  o ∈ material_ops mat <->
    (mat_map mat = Some (fst o) /\ snd o = (true, "sRGBEncoding"))
    \/ (mat_emissiveMap mat = Some (fst o) /\ snd o = (false, "SRGBEncoding"))
    \/ (mat_lightMap mat = Some (fst o) /\ snd o = (false, "SRGBEncoding")).
Proof.
  unfold material_ops, slot_op. destruct o as [l [f e]]. cbn [fst snd].
  destruct (mat_map mat) as [l1 |], (mat_emissiveMap mat) as [l2 |],
    (mat_lightMap mat) as [l3 |]; cbn;
    rewrite ?elem_of_cons, ?elem_of_nil; intuition congruence.
Qed.

Lemma visited_elem (model : Object3D) (h : Heap) (mat : Material) :
  visited model h mat <->
    exists m, m ∈ visited_materials model /\ materials h !! m = Some mat.
Proof.
  unfold visited, visited_materials. split.
  - intros (n & m & Hn & Hm & HM). exists m. split; [| exact HM].
    rewrite list_elem_of_In, in_flat_map. exists n. by rewrite <- !list_elem_of_In.
  - intros (m & Hm & HM). rewrite list_elem_of_In, in_flat_map in Hm.
    destruct Hm as (n & Hn & Hm). exists n, m. by rewrite !list_elem_of_In.
Qed.

Lemma normalize_textures_lookup (model : Object3D) (h : Heap) (l : loc) :
  textures (normalize model h) !! l =
    adjust_at l (ops_of (materials h) (visited_materials model)) <$> textures h !! l.
Proof. rewrite normalize_eq, adjust_all_eq. cbn [textures]. apply apply_ops_lookup. Qed.

(** X10.  The traversal and the materials: each material of a mesh node
    of the model ends with [needsUpdate] set and its three texture slots
    as they were; the materials the traversal does not visit are
    untouched, none is added or removed, and no vector changes. *)
Theorem normalize_materials (model : Object3D) (h : Heap) :
  vectors (normalize model h) = vectors h
  /\ (forall m mat, m ∈ visited_materials model -> materials h !! m = Some mat ->
        materials (normalize model h) !! m =
          Some (mkMaterial (mat_map mat) (mat_emissiveMap mat) (mat_lightMap mat) true))
  /\ (forall m, m ∉ visited_materials model ->
        materials (normalize model h) !! m = materials h !! m)
  /\ (forall m, is_Some (materials (normalize model h) !! m) <-> is_Some (materials h !! m)).
Proof.
  rewrite normalize_eq, adjust_all_eq. cbn [vectors materials].
  split; [reflexivity |]. split; [| split].
  - intros m mat Hm HM. rewrite dirty_all_lookup, HM. by rewrite decide_True.
  - intros m Hm. rewrite dirty_all_lookup, decide_False by exact Hm.
    by destruct (materials h !! m).
  - intros m. rewrite dirty_all_lookup. destruct (materials h !! m); cbn; [| done].
    split; intros _; by eexists.
Qed.

(** X11.  The traversal and the textures of the materials it visits,
    shared or not: a texture that has [colorSpace] ends with
    [THREE.SRGBColorSpace] there and its [encoding] as it was; the
    texture of a base-colour slot ends with [flipY] false; no
    adjustment adds or removes [colorSpace] or [encoding], and every other
    property but [flipY] is as it was. *)
Theorem normalize_textures (model : Object3D) (h : Heap) (mat : Material) (l : loc)
    (t : gmap string jsval) :
  visited model h mat -> references mat l -> textures h !! l = Some t ->
  exists t',
    textures (normalize model h) !! l = Some t'
    /\ (has_prop "colorSpace" t = true ->
          t' !! "colorSpace" = Some (prop THREE "SRGBColorSpace")
          /\ t' !! "encoding" = t !! "encoding")
    /\ (mat_map mat = Some l -> t' !! "flipY" = Some (JBool false))
    /\ has_prop "colorSpace" t' = has_prop "colorSpace" t
    /\ has_prop "encoding" t' = has_prop "encoding" t
    /\ (forall k, k <> "colorSpace" -> k <> "encoding" -> k <> "flipY" -> t' !! k = t !! k).
Proof.
  intros Hvis Href Ht. apply visited_elem in Hvis as (m & Hm & HM).
  rewrite normalize_textures_lookup, Ht. cbn [fmap option_fmap option_map].
  set (ops := ops_of (materials h) (visited_materials model)).
  eexists. split; [reflexivity |].
  assert (Hop : exists o, o ∈ ops /\ fst o = l
                          /\ (mat_map mat = Some l -> fst (snd o) = true)).
  { destruct (mat_map mat) as [l1 |] eqn:Hmap.
    - destruct (decide (l1 = l)) as [-> | Hne].
      + exists (l, (true, "sRGBEncoding")). split; [| done].
        apply ops_of_elem. exists m, mat. split; [exact Hm |]. split; [exact HM |].
        apply material_ops_elem. left. by rewrite Hmap.
      + destruct Href as [Hr | [Hr | Hr]]; [congruence | |];
          (exists (l, (false, "SRGBEncoding")); split; [| split; [done | congruence]];
           apply ops_of_elem; exists m, mat; split; [exact Hm |]; split; [exact HM |];
           apply material_ops_elem; auto).
    - destruct Href as [Hr | [Hr | Hr]]; [congruence | |];
        (exists (l, (false, "SRGBEncoding")); split; [| split; [done | congruence]];
         apply ops_of_elem; exists m, mat; split; [exact Hm |]; split; [exact HM |];
         apply material_ops_elem; auto). }
  destruct Hop as (o & Ho & Hl & Hflip).
  split; [| split; [| split; [| split]]].
  - intros Hcs.
    apply (adjust_at_reaches
             (fun t' => has_prop "colorSpace" t' = true /\ t' !! "encoding" = t !! "encoding")
             (fun t' => t' !! "colorSpace" = Some (prop THREE "SRGBColorSpace")
                        /\ t' !! "encoding" = t !! "encoding") l o); try done.
    + intros f e t' [Hc He]. rewrite adjust_has_prop by done.
      split; [exact Hc |]. by rewrite (proj2 (adjust_colorSpace f e t' Hc)).
    + intros f e t' [Hc He] _. destruct (adjust_colorSpace f e t' Hc) as [H1 H2].
      split; [exact H1 | congruence].
    + intros t' [Hc He]. destruct (adjust_colorSpace (fst (snd o)) (snd (snd o)) t' Hc)
        as [H1 H2].
      split; [exact H1 | congruence].
  - intros Hmap.
    apply (adjust_at_reaches (fun _ => True)
             (fun t' => t' !! "flipY" = Some (JBool false)) l o); try done.
    + intros f e t' _ Hf. apply adjust_flipY. by right.
    + intros t' _. apply adjust_flipY. left. by apply Hflip.
  - apply (adjust_at_invariant
             (fun t' => has_prop "colorSpace" t' = has_prop "colorSpace" t)); [| done].
    intros f e t' <-. by apply adjust_has_prop.
  - apply (adjust_at_invariant
             (fun t' => has_prop "encoding" t' = has_prop "encoding" t)); [| done].
    intros f e t' <-. by apply adjust_has_prop.
  - intros k H1 H2 H3.
    apply (adjust_at_invariant (fun t' => t' !! k = t !! k)); [| done].
    intros f e t' <-. by apply adjust_lookup_other.
Qed.

(** X12.  The traversal leaves alone what the model does not use: a
    texture that no slot of a visited material refers to is untouched,
    and no texture is added to the store or removed from it. *)
Theorem normalize_textures_untouched (model : Object3D) (h : Heap) :
  (forall l, (forall mat, visited model h mat -> ~ references mat l) ->
     textures (normalize model h) !! l = textures h !! l)
  /\ (forall l, is_Some (textures (normalize model h) !! l) <-> is_Some (textures h !! l)).
Proof.
  split.
  - intros l Hnone. rewrite normalize_textures_lookup.
    destruct (textures h !! l) as [t |]; cbn; [| reflexivity].
    f_equal. apply adjust_at_untouched. intros o Ho Hl.
    apply ops_of_elem in Ho as (m & mat & Hm & HM & Ho).
    apply (Hnone mat); [apply visited_elem; by exists m |].
    apply material_ops_elem in Ho. unfold references. rewrite <- Hl. tauto.
  - intros l. rewrite normalize_textures_lookup. destruct (textures h !! l); cbn; [| done].
    split; intros _; by eexists.
Qed.

Lemma adjust_at_absorbed (l : loc) (f : bool) (e : string) (ops : list tex_op)
    (t : gmap string jsval) :
  (forall o, o ∈ ops -> fst o = l -> snd o = (f, e)) ->
  adjust_at l ops (adjust f e t) = adjust f e t.
Proof.
  induction ops as [| o ops IH]; intros Hops; cbn [adjust_at]; [reflexivity |].
  assert (Hrest : forall o', o' ∈ ops -> fst o' = l -> snd o' = (f, e)).
  { intros o' Ho'. apply Hops, elem_of_cons. by right. }
  case_decide as Hl; [| by apply IH].
  rewrite (Hops o (proj2 (elem_of_cons _ _ _) (or_introl eq_refl)) Hl). cbn [fst snd].
  rewrite adjust_idempotent. by apply IH.
Qed.

Lemma adjust_at_single (l : loc) (f : bool) (e : string) (ops : list tex_op)
    (t : gmap string jsval) :
  (forall o, o ∈ ops -> fst o = l -> snd o = (f, e)) ->
  (exists o, o ∈ ops /\ fst o = l) ->
  adjust_at l ops t = adjust f e t.
Proof.
  induction ops as [| o ops IH]; intros Hops (o' & Ho' & Hl').
  - by apply elem_of_nil in Ho'.
  - assert (Hrest : forall o', o' ∈ ops -> fst o' = l -> snd o' = (f, e)).
    { intros o'' Ho''. apply Hops, elem_of_cons. by right. }
    cbn [adjust_at]. case_decide as Hl.
    + rewrite (Hops o (proj2 (elem_of_cons _ _ _) (or_introl eq_refl)) Hl). cbn [fst snd].
      by apply adjust_at_absorbed.
    + apply IH; [exact Hrest |]. apply elem_of_cons in Ho' as [-> | Ho']; [done |].
      by exists o'.
Qed.

(** X13.  A texture that the visited materials use as base colour only,
    however many of them share it, ends exactly as one adjustment of the
    base-colour slot leaves it; on a three.js whose textures have
    [encoding] and no [colorSpace], its [encoding] is
    [THREE.sRGBEncoding]. *)
Theorem normalize_base_colour_only (model : Object3D) (h : Heap) (mat : Material) (l : loc)
    (t : gmap string jsval) :
  visited model h mat -> mat_map mat = Some l -> textures h !! l = Some t ->
  (forall mat', visited model h mat' ->
     mat_emissiveMap mat' <> Some l /\ mat_lightMap mat' <> Some l) ->
  textures (normalize model h) !! l = Some (adjust_map t)
  /\ (has_prop "colorSpace" t = false -> has_prop "encoding" t = true ->
      adjust_map t !! "encoding" = Some (prop THREE "sRGBEncoding")).
Proof.
  intros Hvis Hmap Ht Honly. split; [| apply adjust_map_spec].
  rewrite normalize_textures_lookup, Ht. cbn [fmap option_fmap option_map]. f_equal.
  change (adjust_map t) with (adjust true "sRGBEncoding" t).
  apply adjust_at_single.
  - intros o Ho Hl. apply ops_of_elem in Ho as (m & mat' & Hm & HM & Ho).
    assert (Hvis' : visited model h mat') by (apply visited_elem; by exists m).
    destruct (Honly mat' Hvis') as [He Hlm].
    apply material_ops_elem in Ho. rewrite Hl in Ho. tauto.
  - apply visited_elem in Hvis as (m & Hm & HM).
    exists (l, (true, "sRGBEncoding")). split; [| reflexivity].
    apply ops_of_elem. exists m, mat. split; [exact Hm |]. split; [exact HM |].
    apply material_ops_elem. left. by rewrite Hmap.
Qed.

(** ** The progress of the load *)

(** X14.  The progress callback rewrites the text of the loading notice
    and nothing else of the viewer or the page; the text is the plain
    notice, or the notice with a percentage, and a percentage is shown
    only for a total that is neither [0] nor [NaN] and a ratio that is
    neither [0] nor [NaN]. *)
Theorem onProgress_text (toFixed0 : num -> string) (loaded total : num) (st : Viewer) :
  let st' := onProgress toFixed0 loaded total st in
  same_but_host st st'
  /\ console (host st') = console (host st) /\ alerts (host st') = alerts (host st)
  /\ clientWidth (host st') = clientWidth (host st)
  /\ clientHeight (host st') = clientHeight (host st)
  /\ match loadingEl (host st) with
     | None => loadingEl (host st') = None
     | Some el =>
         exists text,
           loadingEl (host st') = Some (mkLoadingEl text (display el) (background el))
           /\ (text = "Loading 3D model..."
               \/ (text = "Loading 3D model... " ++ toFixed0 (loaded / total * Fin 100)%num
                            ++ "%"
                   /\ total <> NaN /\ total <> Fin 0
                   /\ (loaded / total * Fin 100)%num <> NaN
                   /\ (loaded / total * Fin 100)%num <> Fin 0))
           /\ (forall x y, loaded = Fin x -> total = Fin y -> x <> 0%R -> y <> 0%R ->
                 text = "Loading 3D model... " ++ toFixed0 (Fin (x / y * 100)) ++ "%")
     end.
Proof.
  cbn zeta. unfold onProgress.
  assert (Htruthy : forall a, num_truthy a = true -> a <> NaN /\ a <> Fin 0).
  { intros [| | | x]; cbn; try discriminate; try (by split).
    destruct (Req_dec_T x 0); [discriminate |]. intros _. split; congruence. }
  destruct (loadingEl (host st)) as [el |] eqn:Hel.
  - split; [by repeat split |]. cbn. repeat (split; [reflexivity |]).
    eexists. split; [reflexivity |]. split.
    + destruct (num_truthy total) eqn:Htot; [| by left].
      destruct (num_truthy (loaded / total * Fin 100)) eqn:Hp; [| by left].
      right. destruct (Htruthy _ Htot), (Htruthy _ Hp). by repeat split.
    + intros x y -> -> Hx Hy. cbn.
      destruct (Req_dec_T y 0); [contradiction |]. cbn.
      destruct (Req_dec_T (x / y * 100) 0) as [E | _]; [| reflexivity].
      exfalso. apply Hx.
      assert (Hxy : (x / y * 100 * (y / 100) = x)%R) by (field; exact Hy).
      rewrite E in Hxy. lra.
  - rewrite Hel. by repeat split.
Qed.

(** ** The output colour space of the renderer *)

(** X15.  The colour-space lines of [init] on the renderer: a renderer
    that has [outputColorSpace] gets [THREE.SRGBColorSpace] there and
    keeps its [outputEncoding], one that has [outputEncoding] only gets
    [THREE.sRGBEncoding]; no property is created, every other property is
    as it was, and doing it twice is doing it once. *)
Theorem init_outputColorSpace_spec (renderer : gmap string jsval) :
  let renderer' := init_outputColorSpace renderer in
  (has_prop "outputColorSpace" renderer = true ->
     renderer' !! "outputColorSpace" = Some (prop THREE "SRGBColorSpace")
     /\ renderer' !! "outputEncoding" = renderer !! "outputEncoding")
  /\ (has_prop "outputColorSpace" renderer = false ->
      has_prop "outputEncoding" renderer = true ->
      renderer' !! "outputEncoding" = Some (prop THREE "sRGBEncoding"))
  /\ (forall k, has_prop k renderer' = has_prop k renderer)
  /\ (forall k, k <> "outputColorSpace" -> k <> "outputEncoding" ->
        renderer' !! k = renderer !! k)
  /\ init_outputColorSpace renderer' = renderer'.
Proof.
  cbn zeta. unfold init_outputColorSpace.
  destruct (has_prop "outputColorSpace" renderer) eqn:Hcs;
    [| destruct (has_prop "outputEncoding" renderer) eqn:Henc].
  - assert (Hsame : forall r : gmap string jsval,
              (if has_prop "SRGBColorSpace" THREE
               then <["outputColorSpace" := prop THREE "SRGBColorSpace"]> r
               else <["outputColorSpace" := prop THREE "SRGBColorSpace"]> r)
              = <["outputColorSpace" := prop THREE "SRGBColorSpace"]> r)
      by (intros r; by destruct (has_prop "SRGBColorSpace" THREE)).
    rewrite !Hsame. rewrite has_prop_insert, decide_True by done.
    split; [intros _; split; [apply lookup_insert_eq | by apply lookup_insert_ne] |].
    split; [discriminate |].
    split; [intros k; rewrite has_prop_insert; case_decide; congruence |].
    split; [intros k Hk _; by apply lookup_insert_ne |].
    apply insert_insert_eq.
  - rewrite !has_prop_insert, decide_False, Hcs, decide_True by done.
    split; [discriminate |].
    split; [intros _ _; apply lookup_insert_eq |].
    split; [intros k; rewrite has_prop_insert; case_decide; congruence |].
    split; [intros k _ Hk; by apply lookup_insert_ne |].
    apply insert_insert_eq.
  - rewrite Hcs, Henc. by repeat split.
Qed.

End Properties.

(** * The properties on the concrete instances *)

Lemma radians_45 : (0 < radians 45 < PI)%R.
Proof. unfold radians. pose proof PI_RGT_0. lra. Qed.



(** C3.  On a texture that has [encoding] and no [colorSpace], the
    emissive slot is given [THREE.SRGBEncoding], a name three.js does not
    define: its [encoding] becomes [undefined], not the sRGB encoding
    value [THREE.sRGBEncoding] that the base-colour slot is given. *)
Theorem adjustMaterial_emissive_encoding_undefined :
  textures (adjustMaterial (three := three_legacy cube_box) 7 emissive_heap) !! 0
    = Some {[ "encoding" := Undefined; "flipY" := JBool true ]}
  /\ prop (THREE (ThreeJS := three_legacy cube_box)) "sRGBEncoding" = JNum (Fin 3001)
  /\ textures (adjustMaterial (three := three_legacy cube_box) 7 base_colour_heap) !! 0
     = Some {[ "encoding" := JNum (Fin 3001); "flipY" := JBool false ]}.
Proof. repeat split; vm_compute; reflexivity. Qed.

(** The box of an object without geometry: empty, hence of size and
    centre zero. *)
Lemma Box3_new_degenerate :
  degenerate Box3_new /\ Box3_getSize Box3_new = vzero /\ Box3_getCenter Box3_new = vzero.
Proof. split; [by left | split; reflexivity]. Qed.



Lemma boot_loadPending_complete :
  loadPending
    (run [] (boot (three := three_legacy cube_box) globals_complete example_host)) = true.
Proof.
  rewrite run_nil.
  exact (proj1 (proj2 (boot_page (three := three_legacy cube_box)
                         globals_complete example_host))).
Qed.

Lemma onLoad_no_scene_witness :
  error_visible "Loaded file contains no scene."
    (step (run [] (boot (three := three_legacy cube_box) globals_complete example_host))
       (LoadOk empty_gltf ∅ ∅))
  /\ modelGroup
       (step (run [] (boot (three := three_legacy cube_box) globals_complete example_host))
          (LoadOk empty_gltf ∅ ∅))
     = modelGroup
         (run [] (boot (three := three_legacy cube_box) globals_complete example_host)).
Proof.
  destruct (onLoad_no_scene (three := three_legacy cube_box)
              globals_complete example_host [] empty_gltf ∅ ∅)
    as (_ & Hvis & _ & Hmg & _).
  - exact boot_loadPending_complete.
  - reflexivity.
  - split; [exact Hvis | exact Hmg].
Defined.

Lemma resize_updates_aspect_only_witness :
  exists cam',
    camera (step (example_viewer cube_box) (Resize (Fin 400) (Fin 300))) = Some cam'
    /\ aspect cam' = Fin (400 / 300)
    /\ fov cam' = Fin 45 /\ near cam' = Fin 0.1 /\ far cam' = Fin 10000.
Proof.
  destruct (resize_updates_aspect_only (three := three_legacy cube_box)
              (example_viewer cube_box) example_camera
              (mkRenderer (Fin 1) (Fin 800) (Fin 600) 1) (Fin 400) (Fin 300))
    as (cam' & r' & Hc & _ & Ha & Hf & Hn & Hfar & _).
  - reflexivity.
  - reflexivity.
  - reflexivity.
  - exists cam'. rewrite num_div_Fin in Ha by lra. auto.
Defined.

Lemma boot_without_OrbitControls_witness :
  controls (boot (three := three_legacy cube_box) globals_without_OrbitControls example_host)
    = None
  /\ loadPending
       (boot (three := three_legacy cube_box) globals_without_OrbitControls example_host)
     = false.
Proof.
  destruct (boot_without_OrbitControls (three := three_legacy cube_box)
              globals_without_OrbitControls example_host)
    as (_ & Hk & Hp & _).
  - repeat split.
  - auto.
Defined.

(** Without the controls the render loop still draws: one frame has been
    rendered when the script has run. *)
Lemma render_loop_runs_without_OrbitControls :
  ~ (forall (three : ThreeJS) (g : Globals) (h : Host),
       OrbitControls_missing g ->
       forall r, renderer (boot g h) = Some r -> frames r = 0).
Proof.
  intros Hnone.
  assert (Hmiss : OrbitControls_missing globals_without_OrbitControls) by (repeat split).
  pose proof (Hnone (three_legacy cube_box) globals_without_OrbitControls example_host
                Hmiss _ eq_refl) as Hfr.
  cbn in Hfr. discriminate Hfr.
Qed.

Lemma resetView_before_any_load_witness :
  resetView (run quiet_session (boot globals_complete example_host))
    = Returned (run quiet_session (boot globals_complete example_host)).
Proof.
  destruct (resetView_before_any_load (three := three_legacy cube_box)
              globals_complete example_host quiet_session) as (_ & Hreset & _).
  - repeat constructor.
  - exact Hreset.
Defined.

Lemma boot_loadPending_inertia :
  loadPending (boot (three := three_inertia cube_box) globals_complete example_host) = true.
Proof. vm_compute. reflexivity. Qed.

Lemma resetView_restores_snapshot_witness :
  exists cam ctl st3,
    camera (boot (three := three_inertia cube_box) globals_complete example_host) = Some cam
    /\ controls (boot (three := three_inertia cube_box) globals_complete example_host)
       = Some ctl
    /\ read_vector (run drag_played_out framed_viewer) (position cam) =
         pan_x (pan_x (read_vector framed_viewer (position cam)))
    /\ resetView (run drag_played_out framed_viewer) = Returned st3
    /\ read_vector st3 (position cam) = read_vector framed_viewer (position cam)
    /\ read_vector st3 (target ctl) = read_vector framed_viewer (target ctl).
Proof.
  destruct (boot_with_controls (three := three_inertia cube_box)
              globals_complete example_host eq_refl) as (cam & ctl & Hcam & Hctl).
  assert (Hne : position cam <> target ctl).
  { rewrite <- (run_nil (boot globals_complete example_host)) in Hcam, Hctl.
    by apply (session_camera (three := three_inertia cube_box)
                globals_complete example_host [] cam Hcam). }
  destruct (resetView_restores_snapshot (three := three_inertia cube_box)
              (boot (three := three_inertia cube_box) globals_complete example_host)
              (mkGLTF (Some old_model) None) ∅ ∅ old_model cam ctl drag_played_out)
    as (ics & cam2 & ctl2 & st3 & _ & _ & _ & _ & _ & _ & _ & _ & Hk2 & _ & Hreset & _ & _
        & _ & _ & Hidle).
  - exact boot_loadPending_inertia.
  - reflexivity.
  - exact Hcam.
  - exact Hctl.
  - exact Hne.
  - exists cam, ctl, st3. split; [exact Hcam |]. split; [exact Hctl |].
    split.
    { vm_compute in Hcam. injection Hcam as <-. vm_compute. reflexivity. }
    split; [exact Hreset |].
    apply Hidle. vm_compute in Hk2. injection Hk2 as <-. intros p t. reflexivity.
Defined.

Lemma boot_inertia_position (cam : Camera) :
  camera (boot (three := three_inertia cube_box) globals_complete example_host) = Some cam ->
  position cam = 0.
Proof. intros Hcam. vm_compute in Hcam. by injection Hcam as <-. Qed.

Lemma framed_viewer_position_finite : exists x, vx (read_vector framed_viewer 0) = Fin x.
Proof.
  vm_compute.
  repeat match goal with
         | |- context [Rlt_dec ?a ?b] => destruct (Rlt_dec a b)
         end; by eexists.
Qed.

Lemma drag_in_motion_pending (ctl : Controls) :
  controls (run drag_in_motion framed_viewer) = Some ctl -> orbit ctl = 1.
Proof. intros Hk. vm_compute in Hk. by injection Hk as <-. Qed.

(** A click on the reset button while the controls still have motion
    pending: the [update] that ends [resetView] moves the camera on from
    the snapshot. *)
Lemma reset_during_inertia_leaves_snapshot :
  ~ (forall (three : ThreeJS) (g : Globals) (h : Host) (gltf : GLTF)
            (ms : gmap loc Material) (ts : gmap loc (gmap string jsval))
            (model : Object3D) (evs : list event) (cam : Camera),
       loadPending (boot g h) = true -> gltf_model gltf = Some model ->
       camera (boot g h) = Some cam ->
       forall st3,
         resetView (run evs (step (boot g h) (LoadOk gltf ms ts))) = Returned st3 ->
         read_vector st3 (position cam) =
           read_vector (step (boot g h) (LoadOk gltf ms ts)) (position cam)).
Proof.
  intros Hrestore.
  destruct (boot_with_controls (three := three_inertia cube_box)
              globals_complete example_host eq_refl) as (cam & ctl & Hcam & Hctl).
  assert (Hne : position cam <> target ctl).
  { rewrite <- (run_nil (boot globals_complete example_host)) in Hcam, Hctl.
    by apply (session_camera (three := three_inertia cube_box)
                globals_complete example_host [] cam Hcam). }
  destruct (load_snapshot_kept (three := three_inertia cube_box)
              (boot globals_complete example_host) (mkGLTF (Some old_model) None) ∅ ∅
              old_model cam ctl boot_loadPending_inertia eq_refl Hcam Hctl)
    as (ics & Hkept1 & Hfp & Hft).
  pose proof (snapshot_kept_run (three := three_inertia cube_box) _ _ _ _ _ Hne Hfp Hft
                drag_in_motion framed_viewer Hkept1) as Hkept2.
  pose proof Hkept2 as (_ & (ctl2 & Hk2 & _) & _).
  destruct (snapshot_kept_resetView_pose (three := three_inertia cube_box) _ _ _ _ _
              (run drag_in_motion framed_viewer) ctl2 Hne Hfp Hft Hkept2 Hk2)
    as (st3 & Hreset & Hpos3 & _).
  pose proof (Hrestore (three_inertia cube_box) globals_complete example_host
                (mkGLTF (Some old_model) None) ∅ ∅ old_model drag_in_motion cam
                boot_loadPending_inertia eq_refl Hcam st3 Hreset) as Hsame.
  rewrite Hpos3, (drag_in_motion_pending ctl2 Hk2), (boot_inertia_position cam Hcam) in Hsame.
  destruct framed_viewer_position_finite as [x Hx].
  revert Hx Hsame. clear.
  generalize (read_vector framed_viewer 0). generalize (read_vector framed_viewer (target ctl)).
  intros T P Hx Hsame. cbn [orbit_update three_inertia fst snd] in Hsame.
  apply (f_equal vx) in Hsame. cbn [pan_x vx] in Hsame.
  rewrite Hx in Hsame. cbn [num_add] in Hsame. injection Hsame. lra.
Qed.

Lemma session_without_GLTFLoader_witness :
  loadPending
    (run quiet_session
       (boot (three := three_legacy cube_box) globals_without_GLTFLoader example_host))
  = false
  /\ resizeListener
       (run quiet_session
          (boot (three := three_legacy cube_box) globals_without_GLTFLoader example_host))
     = true.
Proof.
  destruct (session_without_GLTFLoader (three := three_legacy cube_box)
              globals_without_GLTFLoader example_host quiet_session)
    as (_ & _ & Hrl & _ & Hlp & _).
  - reflexivity.
  - reflexivity.
  - split; [exact Hlp | exact Hrl].
Defined.

Lemma boot_DRACOLoader_optional_witness :
  loadPending (boot (three := three_legacy cube_box) globals_complete example_host) = true
  /\ console (host (boot (three := three_legacy cube_box) globals_complete example_host)) =
       (if DRACOLoader_found globals_complete then console example_host
        else console example_host ++
             ["DRACOLoader not available - Draco compressed meshes may not load properly"])%list.
Proof.
  destruct (boot_DRACOLoader_optional (three := three_legacy cube_box)
              globals_complete example_host)
    as (Hlp & _ & _ & _ & Hc).
  - reflexivity.
  - reflexivity.
  - split; [exact Hlp | exact Hc].
Defined.

Lemma session_load_success_witness :
  modelGroup
    (step (run [] (boot (three := three_legacy cube_box) globals_complete example_host))
       (LoadOk (mkGLTF (Some old_model) None) ∅ ∅))
  = [old_model].
Proof.
  destruct (session_load_success (three := three_legacy cube_box)
              globals_complete example_host [] (mkGLTF (Some old_model) None) ∅ ∅ old_model)
    as (Hmg & _).
  - exact boot_loadPending_complete.
  - reflexivity.
  - exact Hmg.
Defined.

Lemma session_viewport_witness :
  exists cam,
    camera (run navigation
              (boot (three := three_legacy cube_box) globals_complete example_host))
      = Some cam
    /\ aspect cam =
         (clientWidth
            (host (run navigation
                     (boot (three := three_legacy cube_box) globals_complete example_host)))
          / clientHeight
              (host (run navigation
                       (boot (three := three_legacy cube_box) globals_complete
                          example_host))))%num.
Proof.
  destruct (session_viewport (three := three_legacy cube_box)
              globals_complete example_host navigation)
    as (cam & r & Hcam & _ & Ha & _).
  - reflexivity.
  - exists cam. split; [exact Hcam | exact Ha].
Defined.

Lemma resize_zero_height_witness :
  exists st' cam',
    onWindowResize
      (set_host
         (set_clientSize (Fin 800) (Fin 0)
            (host (run [] (boot (three := three_legacy cube_box) globals_complete
                             example_host))))
         (run [] (boot (three := three_legacy cube_box) globals_complete example_host)))
      = Returned st'
    /\ camera st' = Some cam'
    /\ aspect cam' = PInf.
Proof.
  destruct (resize_zero_height (three := three_legacy cube_box)
              globals_complete example_host [] 800%R)
    as (st' & cam' & Hret & _ & Hcam & Ha & _).
  - reflexivity.
  - lra.
  - exists st', cam'. split; [exact Hret |]. split; [exact Hcam |]. rewrite Ha.
    destruct (Req_dec_T 800 0) as [E | _]; [lra | reflexivity].
Defined.

Lemma frameModel_box_in_view_witness :
  exists st' cam' pz n fr,
    frameModel [old_model] (example_viewer cube_box) = Returned st'
    /\ camera st' = Some cam'
    /\ near cam' = Fin n /\ far cam' = Fin fr
    /\ (n < pz - 1 /\ pz - -1 < fr)%R
    /\ (Rabs (1 - (-1 + 1) * 0.5) < (pz - 1) * tan (radians 45 / 2))%R.
Proof.
  destruct (frameModel_box_in_view (three := three_legacy cube_box)
              [old_model] (example_viewer cube_box) example_camera (example_controls cube_box)
              45%R (-1)%R (-1)%R (-1)%R 1%R 1%R 1%R)
    as (st' & cam' & ctl' & pz & n & fr & Hret & Hcam & _ & _ & _ & Hn & Hf & Hin).
  - reflexivity.
  - reflexivity.
  - discriminate.
  - intros p t. reflexivity.
  - reflexivity.
  - exact radians_45.
  - replace (radians 45 / 2)%R with (PI / 8)%R by (unfold radians; lra).
    apply Rlt_le, tan_PI8_lt_half.
  - reflexivity.
  - lra.
  - lra.
  - lra.
  - exists st', cam', pz, n, fr.
    split; [exact Hret |]. split; [exact Hcam |]. split; [exact Hn |]. split; [exact Hf |].
    split.
    + split; [apply (Hin 1%R 1%R 1%R); lra | apply (Hin 1%R 1%R (-1)%R); lra].
    + apply (Hin 1%R 1%R 1%R); lra.
Defined.

Lemma textured_model_visits_8 :
  visited textured_model textured_heap (mkMaterial (Some 0) (Some 1) None false).
Proof.
  exists (Obj3D true (MaterialArray [7; 8]) []), 8.
  split; [| split]; [| | reflexivity].
  - cbn. rewrite !elem_of_cons. auto.
  - cbn. rewrite !elem_of_cons. auto.
Qed.

Lemma normalize_textures_witness :
  exists t',
    textures (normalize (three := three_legacy cube_box) textured_model textured_heap) !! 0
      = Some t'
    /\ t' !! "colorSpace" = Some (JStr "srgb")
    /\ t' !! "flipY" = Some (JBool false).
Proof.
  destruct (normalize_textures (three := three_legacy cube_box)
              textured_model textured_heap (mkMaterial (Some 0) (Some 1) None false) 0
              {[ "colorSpace" := JStr ""; "flipY" := JBool true ]})
    as (t' & Ht' & Hcs & Hflip & _).
  - exact textured_model_visits_8.
  - left. reflexivity.
  - reflexivity.
  - exists t'. split; [exact Ht' |]. split.
    + exact (proj1 (Hcs eq_refl)).
    + exact (Hflip eq_refl).
Defined.

Lemma normalize_base_colour_only_witness :
  textures (normalize (three := three_legacy cube_box)
              (Obj3D true (OneMaterial 7) []) base_colour_heap) !! 0
  = Some (adjust_map (three := three_legacy cube_box)
            {[ "encoding" := JNum (Fin 3000); "flipY" := JBool true ]})
  /\ adjust_map (three := three_legacy cube_box)
       {[ "encoding" := JNum (Fin 3000); "flipY" := JBool true ]} !! "encoding"
     = Some (JNum (Fin 3001)).
Proof.
  destruct (normalize_base_colour_only (three := three_legacy cube_box)
              (Obj3D true (OneMaterial 7) []) base_colour_heap
              (mkMaterial (Some 0) None None false) 0
              {[ "encoding" := JNum (Fin 3000); "flipY" := JBool true ]})
    as (Ht' & Henc).
  - exists (Obj3D true (OneMaterial 7) []), 7.
    split; [| split]; [| | reflexivity]; cbn; rewrite !elem_of_cons; auto.
  - reflexivity.
  - reflexivity.
  - intros mat' (n & m & Hn & Hm & HM).
    cbn in Hn. apply list_elem_of_singleton in Hn as ->.
    cbn in Hm. apply list_elem_of_singleton in Hm as ->.
    vm_compute in HM. injection HM as <-. split; discriminate.
  - split; [exact Ht' |]. exact (Henc eq_refl eq_refl).
Defined.

Lemma session_load_failed_witness :
  loadPending
    (run navigation
       (step (run [] (boot (three := three_legacy cube_box) globals_complete example_host))
          (LoadFailed "404")))
  = false
  /\ modelGroup
       (run navigation
          (step (run [] (boot (three := three_legacy cube_box) globals_complete example_host))
             (LoadFailed "404")))
     = [].
Proof.
  destruct (session_load_failed (three := three_legacy cube_box)
              globals_complete example_host [] navigation "404")
    as (_ & _ & Hmg & _ & Hlp).
  - exact boot_loadPending_complete.
  - split; [exact Hlp | exact Hmg].
Defined.

(** * The map page: the zoom range *)

Lemma Math_min_cases (a b : num) :
  isNaN a = false -> isNaN b = false ->
  (Math_min a b = a \/ Math_min a b = b)
  /\ num_ltb a (Math_min a b) = false /\ num_ltb b (Math_min a b) = false.
Proof.
  destruct a as [| | | x], b as [| | | y]; cbn; try discriminate; intros _ _;
    rewrite ?Ropp_involutive; try (split; [auto | split; reflexivity]);
    try (split; [auto | split; try reflexivity; destruct (Rlt_dec _ _); [lra | reflexivity]]).
  unfold Rmax. destruct (Rle_dec (- x) (- y)).
  - rewrite Ropp_involutive. split; [by right |].
    split; destruct (Rlt_dec _ _); try reflexivity; lra.
  - rewrite Ropp_involutive. split; [by left |].
    split; destruct (Rlt_dec _ _); try reflexivity; lra.
Qed.

Lemma Math_max_cases (a b : num) :
  isNaN a = false -> isNaN b = false ->
  (Math_max a b = a \/ Math_max a b = b)
  /\ num_ltb (Math_max a b) a = false /\ num_ltb (Math_max a b) b = false.
Proof.
  destruct a as [| | | x], b as [| | | y]; cbn; try discriminate; intros _ _;
    try (split; [auto | split; reflexivity]);
    try (split; [auto | split; try reflexivity; destruct (Rlt_dec _ _); [lra | reflexivity]]).
  unfold Rmax. destruct (Rle_dec x y).
  - split; [by right |]. split; destruct (Rlt_dec _ _); try reflexivity; lra.
  - split; [by left |]. split; destruct (Rlt_dec _ _); try reflexivity; lra.
Qed.

(** [a >= b >= c] on numbers, written with the JavaScript [<]. *)
Lemma num_ge_trans (a b c : num) :
  isNaN a = false -> isNaN b = false -> isNaN c = false ->
  num_ltb a b = false -> num_ltb b c = false -> num_ltb a c = false.
Proof.
  destruct a as [| | | x], b as [| | | y], c as [| | | z]; cbn; try discriminate;
    try reflexivity; intros _ _ _;
    repeat match goal with |- context [Rlt_dec ?u ?v] => destruct (Rlt_dec u v) end;
    try discriminate; try reflexivity; intros _ _; lra.
Qed.

Lemma Math_min_PInf (a : num) : Math_min a PInf = a.
Proof. destruct a as [| | | x]; cbn; try reflexivity. by rewrite Ropp_involutive. Qed.

Lemma Math_max_NInf (a : num) : Math_max a NInf = a.
Proof. by destruct a. Qed.

Lemma valid_orders (parsed : list num) (n : num) :
  n ∈ List.filter (fun n => negb (isNaN n)) parsed <-> n ∈ parsed /\ isNaN n = false.
Proof.
  rewrite !list_elem_of_In, filter_In. by destruct (isNaN n); intuition.
Qed.

(** The least of a non-empty list of numbers is one of them, below or
    equal to each. *)
Lemma Math_min_list_spec (l : list num) :
  (forall n, n ∈ l -> isNaN n = false) -> l <> [] ->
  Math_min_list l ∈ l /\ forall n, n ∈ l -> num_ltb n (Math_min_list l) = false.
Proof.
  induction l as [| a l IH]; intros Hvalid Hne; [done |].
  assert (Ha : isNaN a = false) by (apply Hvalid, elem_of_cons; by left).
  assert (Hl : forall n, n ∈ l -> isNaN n = false)
    by (intros n Hn; apply Hvalid, elem_of_cons; by right).
  change (Math_min_list (a :: l)) with (Math_min a (Math_min_list l)).
  destruct l as [| b l].
  - cbn. rewrite Math_min_PInf. split; [apply elem_of_cons; by left |].
    intros n Hn. apply list_elem_of_singleton in Hn as ->.
    destruct a as [| | | x]; cbn in *; try done. destruct (Rlt_dec x x); [lra | done].
  - destruct (IH Hl) as [Hin Hle]; [done |].
    set (m := Math_min_list (b :: l)) in *.
    assert (Hm : isNaN m = false) by by apply Hl.
    destruct (Math_min_cases a m Ha Hm) as (Hcase & Hra & Hrm).
    split.
    + destruct Hcase as [-> | ->]; apply elem_of_cons; [by left | by right].
    + assert (Hr : isNaN (Math_min a m) = false) by (destruct Hcase as [-> | ->]; done).
      intros n Hn. apply elem_of_cons in Hn as [-> | Hn]; [exact Hra |].
      apply (num_ge_trans n m); auto.
Qed.

Lemma Math_max_list_spec (l : list num) :
  (forall n, n ∈ l -> isNaN n = false) -> l <> [] ->
  Math_max_list l ∈ l /\ forall n, n ∈ l -> num_ltb (Math_max_list l) n = false.
Proof.
  induction l as [| a l IH]; intros Hvalid Hne; [done |].
  assert (Ha : isNaN a = false) by (apply Hvalid, elem_of_cons; by left).
  assert (Hl : forall n, n ∈ l -> isNaN n = false)
    by (intros n Hn; apply Hvalid, elem_of_cons; by right).
  change (Math_max_list (a :: l)) with (Math_max a (Math_max_list l)).
  destruct l as [| b l].
  - cbn. rewrite Math_max_NInf. split; [apply elem_of_cons; by left |].
    intros n Hn. apply list_elem_of_singleton in Hn as ->.
    destruct a as [| | | x]; cbn in *; try done. destruct (Rlt_dec x x); [lra | done].
  - destruct (IH Hl) as [Hin Hle]; [done |].
    set (m := Math_max_list (b :: l)) in *.
    assert (Hm : isNaN m = false) by by apply Hl.
    destruct (Math_max_cases a m Ha Hm) as (Hcase & Hra & Hrm).
    split.
    + destruct Hcase as [-> | ->]; apply elem_of_cons; [by left | by right].
    + assert (Hr : isNaN (Math_max a m) = false) by (destruct Hcase as [-> | ->]; done).
      intros n Hn. apply elem_of_cons in Hn as [-> | Hn]; [exact Hra |].
      apply (num_ge_trans _ m); auto.
Qed.

(** X18.  The zoom range of the map page is always well formed: whatever
    the tile map resource holds, [minZoom] and [maxZoom] are numbers with
    [minZoom <= maxZoom].  When [TileSet] orders can be read, the two are
    the least and the greatest of the readable ones, unreadable ones being
    skipped; when none can be read the range stays [0..23], and it is
    [5..23] when the resource could not be used at all. *)
Theorem init_zoom_range (tilesets : option (list num)) :
  let zoom := init_zoom tilesets in
  isNaN (fst zoom) = false /\ isNaN (snd zoom) = false
  /\ num_ltb (snd zoom) (fst zoom) = false
  /\ (forall parsed, tilesets = Some parsed ->
        (forall n, n ∈ parsed -> isNaN n = false ->
           num_ltb n (fst zoom) = false /\ num_ltb (snd zoom) n = false)
        /\ ((exists n, n ∈ parsed /\ isNaN n = false) ->
            fst zoom ∈ parsed /\ snd zoom ∈ parsed)
        /\ ((forall n, n ∈ parsed -> isNaN n = true) -> zoom = (Fin 0, Fin 23)))
  /\ (tilesets = None -> zoom = (Fin 5, Fin 23)).
Proof.
  cbn zeta.
  assert (Hdefault : forall a b : R, (a <= b)%R ->
            isNaN (Fin a) = false /\ isNaN (Fin b) = false
            /\ num_ltb (Fin b) (Fin a) = false).
  { intros a b Hab. cbn. destruct (Rlt_dec b a); [lra | done]. }
  destruct tilesets as [parsed |]; cbn [init_zoom].
  - unfold tileset_zoom. set (orders := List.filter _ parsed).
    assert (Hvalid : forall n, n ∈ orders -> isNaN n = false).
    { intros n Hn. by apply valid_orders in Hn as [_ Hn]. }
    destruct orders as [| o orders'] eqn:Horders.
    + assert (Hzoom : (if bool_decide (0 < length parsed)
                       then if bool_decide (0 < length (@nil num))
                            then (Math_min_list [], Math_max_list [])
                            else (Fin 0, Fin 23)
                       else (Fin 0, Fin 23)) = (Fin 0, Fin 23))
        by (by destruct (bool_decide (0 < length parsed))).
      rewrite Hzoom. cbn [fst snd].
      destruct (Hdefault 0%R 23%R) as (H1 & H2 & H3); [lra |].
      split; [exact H1 |]. split; [exact H2 |]. split; [exact H3 |].
      split; [| discriminate].
      intros parsed' [= <-].
      assert (Hnone : forall n, n ∈ parsed -> isNaN n = false -> False).
      { intros n Hn Hv. assert (Hin : n ∈ orders) by (by apply valid_orders).
        rewrite Horders in Hin. by apply elem_of_nil in Hin. }
      split; [intros n Hn Hv; by destruct (Hnone n) |].
      split; [intros (n & Hn & Hv); by destruct (Hnone n) | reflexivity].
    + assert (Hparsed : bool_decide (0 < length parsed) = true).
      { apply bool_decide_eq_true. destruct parsed; [discriminate | cbn; lia]. }
      rewrite Hparsed, bool_decide_eq_true_2 by (cbn; lia). cbn [fst snd].
      rewrite <- Horders in *.
      assert (Hne : orders <> []) by (rewrite Horders; discriminate).
      destruct (Math_min_list_spec orders Hvalid Hne) as [Hmin_in Hmin].
      destruct (Math_max_list_spec orders Hvalid Hne) as [Hmax_in Hmax].
      assert (Ho : o ∈ orders) by (rewrite Horders; apply elem_of_cons; by left).
      split; [by apply Hvalid |]. split; [by apply Hvalid |].
      split.
      { apply (num_ge_trans _ o); auto. }
      split; [| discriminate].
      intros parsed' [= <-]. split; [| split].
      * intros n Hn Hv. assert (Hin : n ∈ orders) by (by apply valid_orders). auto.
      * intros _. apply valid_orders in Hmin_in as [H1 _].
        apply valid_orders in Hmax_in as [H2 _]. by split.
      * intros Hall. apply valid_orders in Ho as [Ho Hv]. rewrite (Hall o Ho) in Hv.
        discriminate.
  - destruct (Hdefault 5%R 23%R) as (H1 & H2 & H3); [lra |]. cbn [fst snd].
    split; [exact H1 |]. split; [exact H2 |]. split; [exact H3 |].
    split; [discriminate | reflexivity].
Qed.
